(** * Re-sharding of raw event files into row chunks

    A shallow embedding of [scripts/extraction/shard_events.py] and the
    properties of its reader dispatch, shard naming, file discovery, chunk
    boundaries and scheduling.

    Python values are embedded as follows: [int] as [Z], [str] as [string],
    a [pathlib.Path] as the list of its [parts], a [set] of strings as a
    [gset string], the file system as a [gmap] from paths to tables, a polars
    [LazyFrame] as the query plan it denotes (evaluated by [collect]), and a
    function that may raise as a function into [result]. Code with side
    effects (logging, mkdir, writes) runs in the monad [M], whose state
    survives an exception just as the effects of a Python program do. *)

From stdpp Require Import base numbers list strings gmap sets pretty sorting.
From Stdlib Require Import Ascii ZArith Lia.

Local Open Scope string_scope.
Local Open Scope Z_scope.
Local Open Scope list_scope.

#[local] Set Warnings "-clear-no-such-hyp".

(** ** Exceptions and results *)

Inductive exn : Type :=
| ValueError (msg : string)
| FileNotFoundError (msg : string)
| DuplicateError (msg : string)
| ColumnNotFoundError (msg : string)
| ComputeError (msg : string).

Inductive result (A : Type) : Type :=
| Ok (a : A)
| Err (e : exn).
Arguments Ok {A} a.
Arguments Err {A} e.

Definition rbind {A B} (r : result A) (k : A → result B) : result B :=
  match r with
  | Ok a => k a
  | Err e => Err e
  end.

Notation "'let?' x ':=' r 'in' k" := (rbind r (λ x, k))
  (at level 10, x pattern, r at level 100, k at level 200).

(** ** Python string operations *)

Module PyStr.

(** [len(s)] *)
Definition len (s : string) : nat := String.length s.

(** [c in s] for a single character [c] *)
Fixpoint mem (c : ascii) (s : string) : bool :=
  match s with
  | EmptyString => false
  | String a r => Ascii.eqb a c || mem c r
  end.

(** [s.split(sep)] for a single-character separator: never empty. *)
Fixpoint split (sep : ascii) (s : string) : list string :=
  match s with
  | EmptyString => [EmptyString]
  | String a r =>
      if Ascii.eqb a sep then EmptyString :: split sep r
      else match split sep r with
           | h :: t => String a h :: t
           | [] => [String a EmptyString]
           end
  end.

(** [sep.join(l)] *)
Fixpoint join (sep : string) (l : list string) : string :=
  match l with
  | [] => ""
  | [x] => x
  | x :: r => x +:+ sep +:+ join sep r
  end.

(** [s.rfind(c)], with [None] for Python's [-1]. *)
Fixpoint rfind (c : ascii) (s : string) : option nat :=
  match s with
  | EmptyString => None
  | String a r =>
      match rfind c r with
      | Some i => Some (S i)
      | None => if Ascii.eqb a c then Some 0%nat else None
      end
  end.

(** [s[i:]] *)
Fixpoint slice_from (i : nat) (s : string) : string :=
  match i, s with
  | O, _ => s
  | S j, String _ r => slice_from j r
  | S _, EmptyString => EmptyString
  end.


(** [s.lower()] on ASCII letters; other bytes are left as they are. *)
Definition lower_ascii (c : ascii) : ascii :=
  let n := nat_of_ascii c in
  if (65 <=? n)%nat && (n <=? 90)%nat then ascii_of_nat (n + 32) else c.

Fixpoint lower (s : string) : string :=
  match s with
  | EmptyString => EmptyString
  | String a r => String (lower_ascii a) (lower r)
  end.

(** [s.endswith(suf)] *)
Fixpoint endswith (s suf : string) : bool :=
  String.eqb s suf ||
  match s with
  | EmptyString => false
  | String _ r => endswith r suf
  end.

(** [s.startswith(c)] for a single character *)
Definition startswith (s : string) (c : ascii) : bool :=
  match s with
  | String a _ => Ascii.eqb a c
  | EmptyString => false
  end.

End PyStr.

(** ** [pathlib.PurePosixPath]

    A path is the list of its [parts]; an absolute path has the root ["/"]
    as its first part. The double-slash root of POSIX is not distinguished
    from the single one. *)

Definition Path : Type := list string.

Module PurePath.

Definition is_absolute (p : Path) : bool :=
  match p with
  | r :: _ => String.eqb r "/"
  | [] => false
  end.

Definition keep_part (x : string) : bool :=
  negb (String.eqb x "") && negb (String.eqb x ".").

(** [Path(s)]: split at the separator, drop empty and ["."] components. *)
Definition parse_parts (s : string) : Path :=
  (if PyStr.startswith s "/" then ["/"] else [])
    ++ List.filter keep_part (PyStr.split "/" s).

(** [p / s] *)
Definition joinpath (p : Path) (s : string) : Path :=
  let q := parse_parts s in
  if is_absolute q then q else p ++ q.

(** [str(p)] *)
Definition str (p : Path) : string :=
  match p with
  | [] => "."
  | r :: t => if String.eqb r "/" then "/" +:+ PyStr.join "/" t
              else PyStr.join "/" p
  end.

(** [p.name] *)
Definition name (p : Path) : string :=
  if is_absolute p && bool_decide (length p = 1%nat) then ""
  else List.last p "".

(** [p.parent] *)
Definition parent (p : Path) : Path :=
  if is_absolute p && bool_decide (length p = 1%nat) then p
  else removelast p.

(** [p.suffix]: the part of the name from its last dot on, when that dot
    is neither the first nor the last character of the name. *)
Definition suffix (p : Path) : string :=
  let name := name p in
  match PyStr.rfind "." name with
  | Some i =>
      if bool_decide (0 < i)%nat && bool_decide (i < PyStr.len name - 1)%nat
      then PyStr.slice_from i name
      else ""
  | None => ""
  end.

(** [p.relative_to(base)] *)
Definition relative_to (p base : Path) : result Path :=
  let n := length base in
  if (if bool_decide (n = 0%nat) then is_absolute p
      else bool_decide (take n p ≠ base))
  then Err (ValueError ("'" +:+ str p +:+ "' is not in the subpath of '"
                          +:+ str base +:+ "'"))
  else Ok (drop n p).

End PurePath.

(** ** Tables and lazy frames (polars) *)

Inductive Value : Type :=
| VInt (i : Z)
| VStr (s : string)
| VNull.

(** A table: its column names and its rows, one cell per column. *)
Record DataFrame : Type := mkDataFrame {
  columns : list string;
  rows : list (list Value);
}.

Definition ROW_IDX_NAME : string := "__row_idx".

(** The file system: the readable tables, by path. *)
Abbreviation FileSystem := (gmap Path DataFrame).

(** A lazy frame is a query plan; nothing is read before [collect]. *)
Inductive LazyFrame : Type :=
| LScan (fp : Path) (row_index_name : string)
| LLazy (df : DataFrame)
| LFilterBetweenLeft (col : string) (lower_bound upper_bound : Z) (src : LazyFrame)
| LDrop (col : string) (src : LazyFrame)
| LSelectLen (src : LazyFrame).

Module Polars.

(** The reader option [row_index_name]: a new first column that numbers
    the rows from zero. *)
Definition with_row_index (name : string) (df : DataFrame) : result DataFrame :=
  if bool_decide (name ∈ columns df)
  then Err (DuplicateError name)
  else Ok (mkDataFrame (name :: columns df)
             (imap (λ i r, VInt (Z.of_nat i) :: r) (rows df))).

(** Reading the file that has the name [fp], as [open] does. *)
Definition read_literal (fs : FileSystem) (fp : Path) (row_index_name : string)
  : result DataFrame :=
  match fs !! fp with
  | None => Err (FileNotFoundError (PurePath.str fp))
  | Some df => with_row_index row_index_name df
  end.

(** [pl.scan_csv] and [pl.scan_parquet] take a path whose text holds one of
    the characters [*], [?] and [[] for a glob pattern, and read the files
    that the pattern matches in place of the file of that name. *)
Definition has_glob (fp : Path) : bool :=
  let s := PurePath.str fp in
  PyStr.mem "*" s || PyStr.mem "?" s || PyStr.mem "[" s.

(** A pattern is malformed when a bracket opens a character class that is
    never closed; this is so when no []] follows the last [[]. *)
Definition unclosed_bracket (fp : Path) : bool :=
  let s := PurePath.str fp in
  match PyStr.rfind "[" s with
  | Some i => negb (PyStr.mem "]" (PyStr.slice_from i s))
  | None => false
  end.

(** What the expansion of a well-formed pattern yields on given files: the
    table of the matching files, or an error. The expansion belongs to
    polars and the operating system; the script is verified for every
    expansion. *)
Definition Expand : Type := FileSystem → Path → result DataFrame.

(** The expansion that finds no file. *)
Definition no_match : Expand :=
  λ _ fp, Err (ComputeError ("no matching files found in " +:+ PurePath.str fp)).

(** The table that a scan of [fp] stands for. *)
Definition read_table (expand : Expand) (fs : FileSystem) (fp : Path)
    (row_index_name : string) : result DataFrame :=
  if has_glob fp then
    if unclosed_bracket fp then Err (ComputeError "invalid glob pattern given")
    else let? df := expand fs fp in with_row_index row_index_name df
  else read_literal fs fp row_index_name.

Fixpoint col_index (c : string) (cols : list string) : option nat :=
  match cols with
  | [] => None
  | x :: r => if String.eqb x c then Some 0%nat else S <$> col_index c r
  end.

(** [is_between(lower, upper, closed="left")] on one cell; a null cell
    gives null, which [filter] drops. *)
Definition is_between_left (lower_bound upper_bound : Z) (v : Value) : bool :=
  match v with
  | VInt i => (lower_bound <=? i) && (i <? upper_bound)
  | _ => false
  end.

Definition cell (j : nat) (r : list Value) : Value := nth j r VNull.

Fixpoint collect (expand : Expand) (fs : FileSystem) (lf : LazyFrame)
  : result DataFrame :=
  match lf with
  | LScan fp row_index_name => read_table expand fs fp row_index_name
  | LLazy df => Ok df
  | LFilterBetweenLeft c lo hi src =>
      let? df := collect expand fs src in
      match col_index c (columns df) with
      | None => Err (ColumnNotFoundError c)
      | Some j =>
          Ok (mkDataFrame (columns df)
                (List.filter (λ r, is_between_left lo hi (cell j r)) (rows df)))
      end
  | LDrop c src =>
      let? df := collect expand fs src in
      match col_index c (columns df) with
      | None => Err (ColumnNotFoundError c)
      | Some j => Ok (mkDataFrame (delete j (columns df)) (delete j <$> rows df))
      end
  | LSelectLen src =>
      let? df := collect expand fs src in
      Ok (mkDataFrame ["len"] [[VInt (Z.of_nat (length (rows df)))]])
  end.

(** [DataFrame.item()] on the one-cell frame of a row count. *)
Definition item (df : DataFrame) : result Z :=
  match rows df with
  | [[VInt n]] => Ok n
  | _ => Err (ValueError "can only call .item() if the dataframe is of shape (1, 1)")
  end.

End Polars.

(** ** The world of the script, and its monad *)

Inductive Level : Type := DEBUG | INFO | WARNING.

Global Instance Level_eq_dec : EqDecision Level.
Proof. solve_decision. Defined.

(** One invocation of the compute wrapper: input file, output file and the
    row chunk bound into the transform. *)
Record WrapCall : Type := mkWrapCall {
  call_in : Path;
  call_out : Path;
  call_start : Z;
  call_end : Z;
}.

Global Instance WrapCall_eq_dec : EqDecision WrapCall.
Proof. solve_decision. Defined.

(** What the script can see and change. *)
Record World : Type := mkWorld {
  cwd : Path;                       (* the working directory, for [resolve] *)
  fs : gmap Path DataFrame;         (* files, input and output alike *)
  dirs : gset Path;                 (* directories made so far *)
  logs : list (Level * string);     (* the log, oldest first *)
  calls : list WrapCall;            (* compute-wrapper invocations, oldest first *)
  globs : Polars.Expand;            (* what polars makes of a glob pattern *)
}.

(** A computation changes the world and returns a value or raises; what
    it did before raising stays done. *)
Definition M (A : Type) : Type := World → World * result A.

Definition ret {A} (a : A) : M A := λ w, (w, Ok a).
Definition raise {A} (e : exn) : M A := λ w, (w, Err e).
Definition bind {A B} (m : M A) (k : A → M B) : M B :=
  λ w, match m w with
       | (w', Ok a) => k a w'
       | (w', Err e) => (w', Err e)
       end.
Definition lift {A} (r : result A) : M A := λ w, (w, r).

Notation "'let*' x ':=' m 'in' k" := (bind m (λ x, k))
  (at level 10, x pattern, m at level 100, k at level 200).
Notation "m ';;' k" := (bind m (λ _, k))
  (at level 100, k at level 200, right associativity).

(** [for x in l: body(x)] *)
Fixpoint for_ {A} (l : list A) (body : A → M unit) : M unit :=
  match l with
  | [] => ret tt
  | x :: r => body x ;; for_ r body
  end.

(** A loop that carries local variables [s] from one pass to the next. *)
Fixpoint for_fold {A S} (l : list A) (s : S) (body : S → A → M S) : M S :=
  match l with
  | [] => ret s
  | x :: r => let* s' := body s x in for_fold r s' body
  end.

(** [logger.debug], [logger.info], [logger.warning] of loguru *)
Definition log (lvl : Level) (msg : string) : M unit :=
  λ w, (mkWorld (cwd w) (fs w) (dirs w) (logs w ++ [(lvl, msg)]) (calls w) (globs w), Ok tt).

Definition logger_debug := log DEBUG.
Definition logger_info := log INFO.
Definition logger_warning := log WARNING.

Definition get_cwd : M Path := λ w, (w, Ok (cwd w)).
Definition get_fs : M (gmap Path DataFrame) := λ w, (w, Ok (fs w)).

(** [lf.collect()]: polars evaluates the plan on the files as they are. *)
Definition polars_collect (lf : LazyFrame) : M DataFrame :=
  λ w, (w, Polars.collect (globs w) (fs w) lf).

(** [p.resolve()]: an absolute path stays, a relative one is taken from the
    working directory (symbolic links are not followed). *)
Definition resolve (here p : Path) : Path :=
  if PurePath.is_absolute p then p else here ++ p.

(** [p.mkdir(parents=True, exist_ok=True)] *)
Definition ancestors (p : Path) : list Path :=
  (λ n, take n p) <$> seq 1 (length p).

Definition mkdir_parents (p : Path) : M unit :=
  λ w, (mkWorld (cwd w) (fs w) (dirs w ∪ list_to_set (ancestors p)) (logs w) (calls w) (globs w),
        Ok tt).

(** [root.glob("**/*.<fmt>")], where [tree] lists the paths found below
    [root], each relative to it, in the order in which the walk yields them. *)
Definition glob (root : Path) (tree : list Path) (fmt : string) : list Path :=
  (λ rel, root ++ rel)
    <$> filter (λ rel, PyStr.endswith (PurePath.name rel) ("." +:+ fmt) = true) tree.

(** [range(start, stop, step)] as a list *)
Definition range_len (start stop step : Z) : Z :=
  if (0 <? step) && (start <? stop) then 1 + (stop - start - 1) `div` step
  else if (step <? 0) && (stop <? start) then 1 + (start - stop - 1) `div` (- step)
  else 0.

Definition py_range (start stop step : Z) : result (list Z) :=
  if step =? 0 then Err (ValueError "range() arg 3 must not be zero")
  else Ok ((λ i : nat, start + Z.of_nat i * step)
             <$> seq 0 (Z.to_nat (range_len start stop step))).

(** ** The script *)

(** A reader takes the path and the keyword argument [row_index_name]. *)
Definition Reader : Type := Path → string → M LazyFrame.

(** [pl.read_csv(gzip.open(fp, mode="rb"), **kwargs).lazy()]: read at once. *)
Definition read_csv_gz : Reader :=
  λ fp row_index_name,
    let* files := get_fs in
    let* df := lift (Polars.read_literal files fp row_index_name) in
    ret (LLazy df).

(** [pl.scan_csv] and [pl.scan_parquet]: nothing is read yet. *)
Definition scan_csv : Reader := λ fp row_index_name, ret (LScan fp row_index_name).
Definition scan_parquet : Reader := λ fp row_index_name, ret (LScan fp row_index_name).

Definition scan_with_row_idx (fp : Path) : M LazyFrame :=
  let sfx := PyStr.lower (PurePath.suffix fp) in
  let* reader :=
    if String.eqb sfx ".csv.gz" then
      logger_debug ("Reading " +:+ PurePath.str fp +:+ " as compressed CSV.");;
      logger_warning "Reading compressed CSV files may be slow and limit parallelizability.";;
      ret read_csv_gz
    else if String.eqb sfx ".csv" then
      logger_debug ("Reading " +:+ PurePath.str fp +:+ " as CSV.");;
      ret scan_csv
    else if String.eqb sfx ".parquet" then
      logger_debug ("Reading " +:+ PurePath.str fp +:+ " as Parquet.");;
      ret scan_parquet
    else
      raise (ValueError ("Unsupported file type: " +:+ PurePath.suffix fp))
  in
  reader fp ROW_IDX_NAME.

Definition filter_to_row_chunk (df : LazyFrame) (start end_ : Z) : LazyFrame :=
  LDrop ROW_IDX_NAME (LFilterBetweenLeft ROW_IDX_NAME start end_ df).

(** [df.collect().write_parquet(out_fp, use_pyarrow=True)] *)
Definition write_fn (df : LazyFrame) (out_fp : Path) : M unit :=
  let* table := polars_collect df in
  λ w, (mkWorld (cwd w) (<[out_fp := table]> (fs w)) (dirs w) (logs w) (calls w) (globs w), Ok tt).

Definition get_shard_prefix (base_path fp : Path) : result string :=
  let? relative_path := PurePath.relative_to fp base_path in
  let relative_parent := PurePath.parent relative_path in
  let file_name := hd "" (PyStr.split "." (PurePath.name relative_path)) in
  Ok (PurePath.str (PurePath.joinpath relative_parent file_name)).

(** Modelled from the spec: [MEDS_polars_functions.mapper.wrap], imported as
    [rwlock_wrap], is not among the sources. Section 6 of the specification
    gives its contract: a call is a no-op when the output exists and
    overwriting is off; otherwise the output receives the materialised
    [transform_fn(read_fn(input_path))]. Locking is not modelled: one
    orchestrator runs at a time. *)
Definition rwlock_wrap (in_fp out_fp : Path)
    (read_fn : Path → M LazyFrame) (write_fn : LazyFrame → Path → M unit)
    (compute_fn : LazyFrame → LazyFrame) (do_overwrite : bool) : M unit :=
  let* files := get_fs in
  if bool_decide (is_Some (files !! out_fp)) && negb do_overwrite then ret tt
  else
    let* df := read_fn in_fp in
    write_fn (compute_fn df) out_fp.

(** The options of the configuration that [main] reads. *)
Record Cfg : Type := mkCfg {
  raw_cohort_dir : string;
  MEDS_cohort_dir : string;
  row_chunksize : Z;
  do_overwrite : bool;
}.

(** [random.shuffle]: the permutation it picks for the list of input files,
    and the one it picks for the chunk starts of each file. *)
Record Shuffle : Type := mkShuffle {
  shuffle_files : list Path → list Path;
  shuffle_rows : Path → list Z → list Z;
}.

Definition shuffle_ok (rng : Shuffle) : Prop :=
  (∀ l, shuffle_files rng l ≡ₚ l) ∧ (∀ f l, shuffle_rows rng f l ≡ₚ l).

(** The list of formats of line 90, most preferred first. *)
Definition FORMATS : list string := ["parquet"; "csv"; "csv.gz"].

(** The message of line 94. *)
Definition skip_warning (f : Path) : string :=
  "Skipping " +:+ PurePath.str f +:+ " as it has already been added in a preferred format.".

(** Lines 88 to 97 of [main]: the local variables are [seen_files] and
    [input_files_to_subshard]. *)
Definition discover_file (raw : Path)
    (vars : gset string * list Path) (f : Path) : M (gset string * list Path) :=
  let '(seen_files, input_files_to_subshard) := vars in
  let* prefix := lift (get_shard_prefix raw f) in
  if bool_decide (prefix ∈ seen_files) then
    logger_warning (skip_warning f);;
    ret (seen_files, input_files_to_subshard)
  else
    let* prefix' := lift (get_shard_prefix raw f) in
    ret ({[prefix']} ∪ seen_files, input_files_to_subshard ++ [f]).

Definition discover_input_files (raw : Path) (tree : list Path) : M (list Path) :=
  let* vars :=
    for_fold FORMATS (∅, []) (λ vars fmt,
      let files_in_fmt := glob raw tree fmt in
      for_fold files_in_fmt vars (discover_file raw))
  in
  ret vars.2.

(** The file name of line 122. *)
Definition chunk_name (st end_ : Z) : string :=
  "[" +:+ pretty st +:+ "-" +:+ pretty end_ +:+ ").parquet".

(** The wrapper invocations are traced in [calls]; the trace is not part of
    the script. *)
Definition trace_call (c : WrapCall) : M unit :=
  λ w, (mkWorld (cwd w) (fs w) (dirs w) (logs w) (calls w ++ [c]) (globs w), Ok tt).

(** Line 121 of [main]: [min(st + row_chunksize, row_count)]. *)
Definition chunk_end (st row_chunksize row_count : Z) : Z :=
  Z.min (st + row_chunksize) row_count.

(** Lines 120 to 128 of [main]: one row chunk. *)
Definition main_chunk (cfg : Cfg) (input_file out_dir : Path) (row_count st : Z)
  : M unit :=
  let end_ := chunk_end st (row_chunksize cfg) row_count in
  let out_fp := PurePath.joinpath out_dir (chunk_name st end_) in
  let compute_fn := λ df, filter_to_row_chunk df st end_ in
  logger_info ("Writing " +:+ PurePath.str input_file +:+ " row-chunk ["
                 +:+ pretty st +:+ "-" +:+ pretty end_ +:+ ") to "
                 +:+ PurePath.str out_fp +:+ ".");;
  trace_call (mkWrapCall input_file out_fp st end_);;
  rwlock_wrap input_file out_fp scan_with_row_idx write_fn compute_fn
    (do_overwrite cfg).

(** Lines 107 to 128 of [main]: one input file. *)
Definition main_file (cfg : Cfg) (rng : Shuffle) (input_file : Path) : M unit :=
  let raw_cohort_dir := PurePath.parse_parts (raw_cohort_dir cfg) in
  let MEDS_cohort_dir := PurePath.parse_parts (MEDS_cohort_dir cfg) in
  let* prefix := lift (get_shard_prefix raw_cohort_dir input_file) in
  let out_dir :=
    PurePath.joinpath (PurePath.joinpath MEDS_cohort_dir "sub_sharded") prefix in
  mkdir_parents out_dir;;
  logger_info ("Processing " +:+ PurePath.str input_file +:+ " to "
                 +:+ PurePath.str out_dir +:+ ".");;
  let* df := scan_with_row_idx input_file in
  let* counted := polars_collect (LSelectLen df) in
  let* row_count := lift (Polars.item counted) in
  let* row_shards := lift (py_range 0 row_count (row_chunksize cfg)) in
  let row_shards := shuffle_rows rng input_file row_shards in
  logger_info ("Splitting " +:+ PurePath.str input_file +:+ " into "
                 +:+ pretty (length row_shards) +:+ " row-chunks of size "
                 +:+ pretty (row_chunksize cfg) +:+ ".");;
  (* [datetime.now()]: the value is dropped *)
  for_ row_shards (main_chunk cfg input_file out_dir row_count).

(** [MEDS_polars_functions.utils.hydra_loguru_init] sets up the log file of
    the process; the log of the world is there from the start. *)
Definition hydra_loguru_init : M unit := ret tt.

(** [main]: the directory listing [tree] and the shuffles [rng] stand for
    what the file system and the random number generator give the run. *)
Definition main (cfg : Cfg) (tree : list Path) (rng : Shuffle) : M unit :=
  hydra_loguru_init;;
  let raw_cohort_dir := PurePath.parse_parts (raw_cohort_dir cfg) in
  let MEDS_cohort_dir := PurePath.parse_parts (MEDS_cohort_dir cfg) in
  let* input_files_to_subshard := discover_input_files raw_cohort_dir tree in
  logger_info ("Starting event sub-sharding. Sub-sharding "
                 +:+ pretty (length input_files_to_subshard) +:+ " files.");;
  let* here := get_cwd in
  logger_info ("Will read raw data from "
                 +:+ PurePath.str (resolve here raw_cohort_dir)
                 +:+ "/$IN_FILE.parquet and write sub-sharded data to "
                 +:+ PurePath.str (resolve here MEDS_cohort_dir)
                 +:+ "/sub_sharded/$IN_FILE/$ROW_START-$ROW_END.parquet");;
  let input_files_to_subshard := shuffle_files rng input_files_to_subshard in
  for_ input_files_to_subshard (main_file cfg rng).

(** ** Trial runs *)

Module Trial.

(** A table of one column and [n] rows. *)
Definition table (n : nat) : DataFrame :=
  mkDataFrame ["v"] ((λ i : nat, [VInt (Z.of_nat (10 * i))]) <$> seq 0 n).

(** A configuration with chunk size [c] that does not overwrite. *)
Definition cfg (c : Z) : Cfg := mkCfg "/raw" "/out" c false.

(** A world with the given files, an empty log and no calls yet, in which
    a glob pattern matches no file. *)
Definition world (files : list (Path * DataFrame)) : World :=
  mkWorld ["/"; "home"] (list_to_map files) ∅ [] [] Polars.no_match.

(** The expansion of a pattern [dir/*.parquet]: the files of [dir] whose
    names end in [.parquet], read one after the other under the columns of
    the first. Other patterns match nothing. *)
Definition star_parquet : Polars.Expand :=
  λ files fp,
    if String.eqb (PurePath.name fp) "*.parquet" then
      let found :=
        List.filter
          (λ kv : Path * DataFrame,
             bool_decide (PurePath.parent kv.1 = PurePath.parent fp)
             && PyStr.endswith (PurePath.name kv.1) ".parquet")
          (map_to_list files) in
      match found with
      | [] => Polars.no_match files fp
      | (_, d) :: _ => Ok (mkDataFrame (columns d) (found ≫= (λ kv, rows kv.2)))
      end
    else Polars.no_match files fp.

(** A world in which glob patterns are expanded by [expand]. *)
Definition world_with (expand : Polars.Expand) (files : list (Path * DataFrame))
  : World :=
  mkWorld ["/"; "home"] (list_to_map files) ∅ [] [] expand.

(** Two shuffles: the one that changes nothing, the one that reverses. *)
Definition keep : Shuffle := mkShuffle (λ l, l) (λ _ l, l).
Definition flip : Shuffle := mkShuffle (λ l, reverse l) (λ _ l, reverse l).

End Trial.

(** ** Vocabulary of the statements *)

(** The world after one more log entry, after several. *)
Definition log_entry (lvl : Level) (msg : string) (w : World) : World :=
  mkWorld (cwd w) (fs w) (dirs w) (logs w ++ [(lvl, msg)]) (calls w) (globs w).

Definition log_all (entries : list (Level * string)) (w : World) : World :=
  mkWorld (cwd w) (fs w) (dirs w) (logs w ++ entries) (calls w) (globs w).

(** The rows [start, end) of a table, in Python's [rows[start:end]] for
    bounds that are not negative. *)
Definition row_slice (start end_ : Z) (l : list (list Value)) : list (list Value) :=
  take (Z.to_nat end_ - Z.to_nat start) (drop (Z.to_nat start) l).

(** A component of a parsed path: not empty, not ["."], free of the
    separator. A path below a root, relative to it, has at least one. *)
Definition valid_part (x : string) : bool :=
  negb (String.eqb x "") && negb (String.eqb x ".") && negb (PyStr.mem "/" x).

(** A relative path as a directory walk yields it. *)
Definition valid_rel (rel : Path) : bool :=
  negb (bool_decide (rel = [])) && forallb valid_part rel.

(** The name of a file up to its first dot, as a path of one part or none. *)
Definition stem_parts (name : string) : Path :=
  let stem := hd "" (PyStr.split "." name) in
  if String.eqb stem "" then [] else [stem].

(** The parts of the shard prefix of a relative path. *)
Definition shard_parts (rel : Path) : Path :=
  removelast rel ++ stem_parts (List.last rel "").

(** The files that the loop of lines 92 to 97 accepts, where [key] gives
    the shard prefix of a file and [seen] holds the prefixes seen so far. *)
Fixpoint accepted_of (key : Path → string) (seen : gset string) (l : list Path)
  : list Path :=
  match l with
  | [] => []
  | f :: r =>
      if decide (key f ∈ seen) then accepted_of key seen r
      else f :: accepted_of key ({[key f]} ∪ seen) r
  end.

(** The files that the same loop skips. *)
Fixpoint skipped_of (key : Path → string) (seen : gset string) (l : list Path)
  : list Path :=
  match l with
  | [] => []
  | f :: r =>
      if decide (key f ∈ seen) then f :: skipped_of key seen r
      else skipped_of key ({[key f]} ∪ seen) r
  end.

(** The files that the three globs of [main] find, in the order in which
    the loops of lines 90 to 92 visit them. *)
Definition discovered (raw : Path) (tree : list Path) : list Path :=
  FORMATS ≫= glob raw tree.

(** The shard prefix of a file found below [raw]. *)
Definition shard_key (raw : Path) (f : Path) : string :=
  PurePath.str (shard_parts (drop (length raw) f)).

(** A directory listing holds relative paths that are well formed. *)
Definition tree_ok (tree : list Path) : Prop :=
  ∀ rel, rel ∈ tree → valid_rel rel = true.



(** The world with other files, with one more call, with more directories. *)
Definition set_fs (files : gmap Path DataFrame) (w : World) : World :=
  mkWorld (cwd w) files (dirs w) (logs w) (calls w) (globs w).

Definition add_call (c : WrapCall) (w : World) : World :=
  mkWorld (cwd w) (fs w) (dirs w) (logs w) (calls w ++ [c]) (globs w).

Definition add_dirs (p : Path) (w : World) : World :=
  mkWorld (cwd w) (fs w) (dirs w ∪ list_to_set (ancestors p)) (logs w) (calls w) (globs w).

(** The call that [main_chunk] makes for the chunk that starts at [st]. *)
Definition chunk_call (cfg : Cfg) (input_file out_dir : Path) (row_count st : Z)
  : WrapCall :=
  let end_ := chunk_end st (row_chunksize cfg) row_count in
  mkWrapCall input_file (PurePath.joinpath out_dir (chunk_name st end_)) st end_.

(** The messages of lines 125, 110 and 117. *)
Definition chunk_info (cfg : Cfg) (input_file out_dir : Path) (row_count st : Z)
  : string :=
  let end_ := chunk_end st (row_chunksize cfg) row_count in
  "Writing " +:+ PurePath.str input_file +:+ " row-chunk ["
    +:+ pretty st +:+ "-" +:+ pretty end_ +:+ ") to "
    +:+ PurePath.str (PurePath.joinpath out_dir (chunk_name st end_)) +:+ ".".

Definition file_info (f out_dir : Path) : string :=
  "Processing " +:+ PurePath.str f +:+ " to " +:+ PurePath.str out_dir +:+ ".".

Definition split_info (cfg : Cfg) (f : Path) (row_shards : list Z) : string :=
  "Splitting " +:+ PurePath.str f +:+ " into " +:+ pretty (length row_shards)
    +:+ " row-chunks of size " +:+ pretty (row_chunksize cfg) +:+ ".".

(** The directory of line 108 for a shard prefix. *)
Definition out_dir_of (cfg : Cfg) (prefix : string) : Path :=
  PurePath.joinpath
    (PurePath.joinpath (PurePath.parse_parts (MEDS_cohort_dir cfg)) "sub_sharded")
    prefix.

(** The file holds a table of [R] rows that the reader dispatch can read:
    with it, the row-count probe of lines 112 and 113 yields [R]. The path
    is free of glob characters, so that the scan reads this file. *)
Definition holds_rows (w : World) (f : Path) (R : Z) : Prop :=
  PyStr.lower (PurePath.suffix f) ∈ [".csv"; ".parquet"]
  ∧ Polars.has_glob f = false
  ∧ ∃ df, fs w !! f = Some df ∧ (ROW_IDX_NAME ∉ columns df)
          ∧ Z.of_nat (length (rows df)) = R.

(** The files that discovery accepts, in the order in which it finds them. *)
Definition accepted_files (cfg : Cfg) (tree : list Path) : list Path :=
  let raw := PurePath.parse_parts (raw_cohort_dir cfg) in
  accepted_of (shard_key raw) ∅ (discovered raw tree).

(** What [main] logs before it turns to the files. *)
Definition main_entries (cfg : Cfg) (tree : list Path) (here : Path)
  : list (Level * string) :=
  let raw := PurePath.parse_parts (raw_cohort_dir cfg) in
  ((λ f, (WARNING, skip_warning f))
     <$> skipped_of (shard_key raw) ∅ (discovered raw tree))
  ++ [(INFO, "Starting event sub-sharding. Sub-sharding "
               +:+ pretty (length (accepted_files cfg tree)) +:+ " files.");
      (INFO, "Will read raw data from "
               +:+ PurePath.str (resolve here raw)
               +:+ "/$IN_FILE.parquet and write sub-sharded data to "
               +:+ PurePath.str (resolve here
                                   (PurePath.parse_parts (MEDS_cohort_dir cfg)))
               +:+ "/sub_sharded/$IN_FILE/$ROW_START-$ROW_END.parquet")].



(** The table that the wrapper writes for a call, read from the files [fs0]
    by name. *)
Definition call_table (fs0 : gmap Path DataFrame) (c : WrapCall) : result DataFrame :=
  Polars.collect Polars.no_match fs0
    (filter_to_row_chunk (LScan (call_in c) ROW_IDX_NAME) (call_start c) (call_end c)).

(** The effect of one call that ends normally. *)
Definition apply_call (ov : bool) (fs0 : gmap Path DataFrame) (c : WrapCall)
    (m : gmap Path DataFrame) : gmap Path DataFrame :=
  if bool_decide (is_Some (m !! call_out c)) && negb ov then m
  else match call_table fs0 c with
       | Ok table => <[call_out c := table]> m
       | Err _ => m
       end.

(** The effect of a list of calls, the first of the list first. *)
Fixpoint apply_calls (ov : bool) (fs0 : gmap Path DataFrame) (l : list WrapCall)
    (m : gmap Path DataFrame) : gmap Path DataFrame :=
  match l with
  | [] => m
  | c :: r => apply_calls ov fs0 r (apply_call ov fs0 c m)
  end.

(** The row count of a file as lines 112 and 113 of [main] find it when
    the file is read by name. *)
Definition probe (files : gmap Path DataFrame) (f : Path) : result Z :=
  let? counted :=
    Polars.collect Polars.no_match files (LSelectLen (LScan f ROW_IDX_NAME)) in
  Polars.item counted.

(** The calls that [main_file] makes for a file when it ends normally, with
    the files as in [fs0] and the chunk starts put in the order [order]. *)
Definition file_calls (cfg : Cfg) (fs0 : gmap Path DataFrame)
    (order : Path → list Z → list Z) (f : Path) : list WrapCall :=
  match get_shard_prefix (PurePath.parse_parts (raw_cohort_dir cfg)) f,
        probe fs0 f with
  | Ok prefix, Ok R =>
      match py_range 0 R (row_chunksize cfg) with
      | Ok starts => chunk_call cfg f (out_dir_of cfg prefix) R <$> order f starts
      | Err _ => []
      end
  | _, _ => []
  end.

(** The input files are as they were at the start, in [fs0]. *)
Definition inputs_kept (fs0 : gmap Path DataFrame) (inputs : list Path)
    (m : gmap Path DataFrame) : Prop :=
  ∀ g, g ∈ inputs → m !! g = fs0 !! g.

(** The chunk starts of a file as [range] gives them. *)
Definition in_order : Path → list Z → list Z := λ _ l, l.

(** All calls of a normal run, the files and the chunks of each file in
    the order of discovery. *)
Definition all_calls (cfg : Cfg) (tree : list Path) (fs0 : gmap Path DataFrame)
  : list WrapCall :=
  accepted_files cfg tree ≫= file_calls cfg fs0 in_order.

(** The directory below which [main] puts every output file. *)
Definition sub_sharded_root (cfg : Cfg) : Path :=
  PurePath.parse_parts (MEDS_cohort_dir cfg) ++ ["sub_sharded"].

(** The rows [start, end) of a table, as a table of the same columns. *)
Definition chunk_table (d : DataFrame) (start end_ : Z) : DataFrame :=
  mkDataFrame (columns d) (row_slice start end_ (rows d)).



(** Every file that discovery accepts has a path free of glob characters. *)
Definition plain_inputs (cfg : Cfg) (tree : list Path) : Prop :=
  ∀ f, f ∈ accepted_files cfg tree → Polars.has_glob f = false.

(** ** Strings *)

Section string_facts.

Local Arguments String.append !_ _ / : simpl nomatch.

Lemma eqb_true (a b : string) : String.eqb a b = true ↔ a = b.
Proof. apply String.eqb_eq. Qed.

Lemma eqb_false (a b : string) : String.eqb a b = false ↔ a ≠ b.
Proof. apply String.eqb_neq. Qed.

Lemma len_app (a b : string) :
  PyStr.len (a +:+ b) = (PyStr.len a + PyStr.len b)%nat.
Proof. unfold PyStr.len. induction a as [|x a IH]; simpl; [done | by rewrite IH]. Qed.

Lemma mem_app c (a b : string) :
  PyStr.mem c (a +:+ b) = PyStr.mem c a || PyStr.mem c b.
Proof.
  induction a as [|x a IH]; simpl; [done|]. rewrite IH. by rewrite orb_assoc.
Qed.

Lemma endswith_spec (s suf : string) :
  PyStr.endswith s suf = true ↔ ∃ pre, s = pre +:+ suf.
Proof.
  induction s as [|a s IH]; cbn [PyStr.endswith].
  - rewrite orb_false_r, eqb_true. split.
    + intros <-. by exists "".
    + intros [[|??] H]; simpl in H; [done | discriminate].
  - rewrite orb_true_iff, eqb_true, IH. split.
    + intros [<- | [pre ->]]; [by exists "" | by exists (String a pre)].
    + intros [[|b pre] H]; simpl in H; [by left | right].
      injection H as _ ->. by exists pre.
Qed.


Lemma rfind_app c (a b : string) :
  PyStr.rfind c (a +:+ b)
  = match PyStr.rfind c b with
    | Some i => Some (PyStr.len a + i)%nat
    | None => PyStr.rfind c a
    end.
Proof.
  induction a as [|x a IH]; simpl.
  - by destruct (PyStr.rfind c b).
  - rewrite IH. by destruct (PyStr.rfind c b).
Qed.

Lemma rfind_None c (s : string) : PyStr.rfind c s = None ↔ PyStr.mem c s = false.
Proof.
  induction s as [|a s IH]; simpl; [done|].
  destruct (PyStr.rfind c s) eqn:E.
  - split; [done|]. rewrite orb_false_iff. intros [_ H]. by apply IH in H.
  - destruct IH as [IH _]. rewrite IH by done. rewrite orb_false_r.
    by destruct (Ascii.eqb a c).
Qed.

Lemma slice_from_app (a b : string) (i : nat) :
  PyStr.slice_from (PyStr.len a + i) (a +:+ b) = PyStr.slice_from i b.
Proof. induction a as [|x a IH]; simpl; [done | by rewrite IH]. Qed.

(** What follows the last occurrence of a character is free of it. *)
Lemma rfind_slice c (s : string) (i : nat) :
  PyStr.rfind c s = Some i →
  ∃ t, PyStr.slice_from i s = String c t ∧ PyStr.mem c t = false.
Proof.
  revert i. induction s as [|a s IH]; intros i; simpl; [done|].
  destruct (PyStr.rfind c s) as [j|] eqn:E.
  - intros [= <-]. simpl. by apply IH.
  - destruct (Ascii.eqb a c) eqn:Ea; [|done]. intros [= <-]. simpl.
    apply Ascii.eqb_eq in Ea as ->. exists s. split; [done|].
    by apply rfind_None.
Qed.

Lemma lower_ascii_dot c : PyStr.lower_ascii c = "."%char → c = "."%char.
Proof. destruct c as [[] [] [] [] [] [] [] []]; vm_compute; congruence. Qed.

Lemma mem_dot_lower (s : string) :
  PyStr.mem "." s = false → PyStr.mem "." (PyStr.lower s) = false.
Proof.
  induction s as [|a s IH]; simpl; [done|].
  rewrite !orb_false_iff. intros [Ha Hs]. split; [|by apply IH].
  apply Ascii.eqb_neq. intros Hl. apply lower_ascii_dot in Hl.
  by apply Ascii.eqb_neq in Ha.
Qed.

Lemma hd_split_mem c (s : string) : PyStr.mem c (hd "" (PyStr.split c s)) = false.
Proof.
  induction s as [|a s IH]; simpl; [done|].
  destruct (Ascii.eqb a c) eqn:E; simpl; [done|].
  destruct (PyStr.split c s) as [|h t]; simpl in *; by rewrite E.
Qed.

Lemma split_no_sep c (s : string) : PyStr.mem c s = false → PyStr.split c s = [s].
Proof.
  induction s as [|a s IH]; simpl; [done|].
  rewrite orb_false_iff. intros [-> Hs]. by rewrite IH.
Qed.

Lemma hd_split_mem_other c d (s : string) :
  PyStr.mem d s = false → PyStr.mem d (hd "" (PyStr.split c s)) = false.
Proof.
  induction s as [|a s IH]; simpl; [done|].
  rewrite orb_false_iff. intros [Ha Hs].
  destruct (Ascii.eqb a c) eqn:E; simpl; [done|].
  specialize (IH Hs).
  destruct (PyStr.split c s) as [|h t]; simpl in *; by rewrite Ha.
Qed.

End string_facts.

(** ** The suffix of a path and the reader dispatch *)

Section suffix_facts.

Local Arguments String.append !_ _ / : simpl nomatch.

Lemma suffix_shape (p : Path) :
  PurePath.suffix p = ""
  ∨ ∃ t, PurePath.suffix p = String "." t ∧ PyStr.mem "." t = false.
Proof.
  unfold PurePath.suffix.
  destruct (PyStr.rfind "." (PurePath.name p)) as [i|] eqn:E; [|by left].
  destruct (_ && _); [|by left]. right. by apply rfind_slice.
Qed.

Example suffix_examples :
  PurePath.suffix ["my"; "library.tar.gz"] = ".gz"
  ∧ PurePath.suffix ["my"; "library.tar"] = ".tar"
  ∧ PurePath.suffix ["my"; "library"] = ""
  ∧ PurePath.suffix [".bashrc"] = ""
  ∧ PurePath.suffix ["name."] = "".
Proof. repeat split; reflexivity. Qed.

(** [Path.suffix] has one dot at most, so the first case of the [match]
    in [scan_with_row_idx] is never taken. *)
Lemma suffix_not_csv_gz (p : Path) :
  String.eqb (PyStr.lower (PurePath.suffix p)) ".csv.gz" = false.
Proof.
  apply eqb_false. destruct (suffix_shape p) as [-> | (t & -> & Ht)]; [done|].
  simpl. intros [= H]. apply mem_dot_lower in Ht. by rewrite H in Ht.
Qed.

Lemma suffix_of_csv_gz (p : Path) :
  PyStr.endswith (PurePath.name p) ".csv.gz" = true → PurePath.suffix p = ".gz".
Proof.
  intros [pre H]%endswith_spec. unfold PurePath.suffix. rewrite H.
  rewrite rfind_app. simpl PyStr.rfind. rewrite len_app. simpl PyStr.len.
  rewrite !bool_decide_true by lia. simpl. by rewrite (slice_from_app pre ".csv.gz" 4).
Qed.

End suffix_facts.

(** The three outcomes of [scan_with_row_idx]. *)
Lemma scan_with_row_idx_run (fp : Path) (w : World) :
  scan_with_row_idx fp w =
    let sfx := PyStr.lower (PurePath.suffix fp) in
    if String.eqb sfx ".csv" then
      (log_entry DEBUG ("Reading " +:+ PurePath.str fp +:+ " as CSV.") w,
       Ok (LScan fp ROW_IDX_NAME))
    else if String.eqb sfx ".parquet" then
      (log_entry DEBUG ("Reading " +:+ PurePath.str fp +:+ " as Parquet.") w,
       Ok (LScan fp ROW_IDX_NAME))
    else (w, Err (ValueError ("Unsupported file type: " +:+ PurePath.suffix fp))).
Proof.
  unfold scan_with_row_idx. cbv zeta. rewrite suffix_not_csv_gz.
  destruct (String.eqb _ ".csv"); [done|]. by destruct (String.eqb _ ".parquet").
Qed.

(** C1. A path whose name ends in [.csv.gz] has the suffix [.gz], which no
    case of the reader dispatch matches: instead of a lazy table read as
    compressed CSV, [scan_with_row_idx] raises the error for an unsupported
    file type, and leaves the world as it was. *)
Theorem scan_with_row_idx_csv_gz_raises (fp : Path) (w : World) :
  PyStr.endswith (PurePath.name fp) ".csv.gz" = true →
  scan_with_row_idx fp w = (w, Err (ValueError "Unsupported file type: .gz")).
Proof.
  intros H. rewrite scan_with_row_idx_run. cbv zeta.
  by rewrite (suffix_of_csv_gz fp H).
Qed.

Lemma scan_with_row_idx_csv_gz_raises_witness :
  scan_with_row_idx ["/"; "a"; "b"; "c"; "d"; "e.csv.gz"] (Trial.world [])
  = (Trial.world [], Err (ValueError "Unsupported file type: .gz")).
Proof. by apply scan_with_row_idx_csv_gz_raises. Defined.

(** C7. When the lower-cased suffix of a path is none of the strings the
    dispatch knows, [scan_with_row_idx] raises a [ValueError] whose message
    ends with that suffix; nothing is logged and nothing is skipped. *)
Theorem scan_with_row_idx_unsupported (fp : Path) (w : World) :
  PyStr.lower (PurePath.suffix fp) ∉ [".csv.gz"; ".csv"; ".parquet"] →
  scan_with_row_idx fp w
  = (w, Err (ValueError ("Unsupported file type: " +:+ PurePath.suffix fp))).
Proof.
  intros H. rewrite scan_with_row_idx_run. cbv zeta.
  rewrite !not_elem_of_cons in H. destruct H as (_ & H1 & H2 & _).
  apply eqb_false in H1, H2. by rewrite H1, H2.
Qed.

Lemma scan_with_row_idx_unsupported_witness :
  scan_with_row_idx ["/"; "raw"; "notes.TXT"] (Trial.world [])
  = (Trial.world [], Err (ValueError "Unsupported file type: .TXT")).
Proof.
  apply (scan_with_row_idx_unsupported ["/"; "raw"; "notes.TXT"]).
  rewrite !not_elem_of_cons.
  repeat split; try (vm_compute; discriminate). apply not_elem_of_nil.
Defined.

(** ** Chunk boundaries *)

Section chunk_boundaries.

Variables (R C : Z).
Hypothesis (HR : 0 ≤ R) (HC : 0 < C).

Lemma range_len_below (k : Z) : 0 ≤ k → k < range_len 0 R C ↔ k * C < R.
Proof.
  intros Hk. unfold range_len.
  destruct (Z.ltb_spec 0 C) as [_|?]; [|lia].
  destruct (Z.ltb_spec 0 R) as [HR'|HR']; simpl.
  - replace (R - 0 - 1) with (R - 1) by lia.
    pose proof (Z.mul_div_le (R - 1) C HC) as Hlo.
    pose proof (Z.mul_succ_div_gt (R - 1) C HC) as Hhi.
    set (q := (R - 1) `div` C) in *. split; intros Hlt.
    + assert (k * C ≤ q * C) by (apply Z.mul_le_mono_nonneg_r; lia). lia.
    + destruct (Z_lt_le_dec k (1 + q)) as [|Hge]; [done|].
      assert ((1 + q) * C ≤ k * C) by (apply Z.mul_le_mono_nonneg_r; lia). lia.
  - destruct (Z.ltb_spec C 0); [lia|]. simpl. nia.
Qed.

Lemma py_range_starts :
  py_range 0 R C
  = Ok ((λ i : nat, 0 + Z.of_nat i * C) <$> seq 0 (Z.to_nat (range_len 0 R C))).
Proof. unfold py_range. destruct (Z.eqb_spec C 0); [lia | done]. Qed.

Lemma elem_of_starts (st : Z) :
  st ∈ (λ i : nat, 0 + Z.of_nat i * C) <$> seq 0 (Z.to_nat (range_len 0 R C))
  ↔ ∃ k, 0 ≤ k ∧ st = k * C ∧ st < R.
Proof.
  rewrite list_elem_of_fmap. setoid_rewrite elem_of_seq. split.
  - intros (i & -> & _ & Hi). exists (Z.of_nat i). split; [lia|]. split; [lia|].
    rewrite Z.add_0_l. apply range_len_below; lia.
  - intros (k & Hk & -> & Hlt). exists (Z.to_nat k).
    rewrite Z2Nat.id by done. split; [lia|]. split; [lia|].
    apply range_len_below in Hlt; [|done]. lia.
Qed.

End chunk_boundaries.

(** The chunks of the specification's example: 10000 rows in chunks of
    3000, and the last chunk ends with the file. *)
Example py_range_10000_3000 :
  py_range 0 10000 3000 = Ok [0; 3000; 6000; 9000]
  ∧ chunk_end 9000 3000 10000 = 10000.
Proof. split; reflexivity. Qed.

(** C2. For a row count [R ≥ 0] and a chunk size [C > 0] the chunk starts
    are [0, C, 2C, …], in this order, and are just the multiples of [C]
    strictly below [R]; a chunk runs from its start to
    [min (start + C) R]; every chunk is a non-empty interval inside [0, R),
    two chunks that share a row are the same chunk, and the chunks cover
    [0, R) exactly. *)
Theorem chunks_partition_rows (R C : Z) :
  0 ≤ R → 0 < C →
  ∃ starts : list Z,
    py_range 0 R C = Ok starts
    ∧ (∀ (i : nat) st, starts !! i = Some st → st = Z.of_nat i * C)
    ∧ (∀ k, 0 ≤ k → k * C ∈ starts ↔ k * C < R)
    ∧ (∀ st, st ∈ starts →
         chunk_end st C R = Z.min (st + C) R
         ∧ 0 ≤ st ∧ st < chunk_end st C R ∧ chunk_end st C R ≤ R)
    ∧ (∀ st1 st2 x, st1 ∈ starts → st2 ∈ starts →
         st1 ≤ x < chunk_end st1 C R → st2 ≤ x < chunk_end st2 C R → st1 = st2)
    ∧ (∀ x, 0 ≤ x < R ↔ ∃ st, st ∈ starts ∧ st ≤ x < chunk_end st C R).
Proof.
  intros HR HC. eexists. split; [by apply py_range_starts|].
  unfold chunk_end. split; [|split; [|split; [|split]]].
  - intros i st H. rewrite list_lookup_fmap in H.
    destruct (seq _ _ !! i) as [j|] eqn:E; [|done].
    apply lookup_seq in E as [-> _]. simpl in H. injection H as <-. lia.
  - intros k Hk. split.
    + by intros (k' & _ & _ & ?)%elem_of_starts.
    + intros Hlt. apply elem_of_starts; [done..|]. by exists k.
  - intros st (k & ? & -> & ?)%elem_of_starts; [|done..].
    split; [done|]. nia.
  - intros st1 st2 x (k1 & ? & -> & ?)%elem_of_starts (k2 & ? & -> & ?)%elem_of_starts;
      [|done..]. intros. assert (k1 = k2) by nia. by subst.
  - intros x. split.
    + intros Hx. exists (x `div` C * C).
      pose proof (Z.mul_div_le x C HC). pose proof (Z.mul_succ_div_gt x C HC).
      assert (0 ≤ x `div` C) by (apply Z.div_pos; lia).
      split; [|lia]. apply elem_of_starts; [done..|]. exists (x `div` C). lia.
    + intros (st & (k & ? & -> & ?)%elem_of_starts & ?); [nia | done..].
Qed.

Lemma chunks_partition_rows_witness :
  ∃ starts : list Z,
    py_range 0 10000 3000 = Ok starts
    ∧ (∀ (i : nat) st, starts !! i = Some st → st = Z.of_nat i * 3000)
    ∧ (∀ k, 0 ≤ k → k * 3000 ∈ starts ↔ k * 3000 < 10000)
    ∧ (∀ st, st ∈ starts →
         chunk_end st 3000 10000 = Z.min (st + 3000) 10000
         ∧ 0 ≤ st ∧ st < chunk_end st 3000 10000 ∧ chunk_end st 3000 10000 ≤ 10000)
    ∧ (∀ st1 st2 x, st1 ∈ starts → st2 ∈ starts →
         st1 ≤ x < chunk_end st1 3000 10000 → st2 ≤ x < chunk_end st2 3000 10000 →
         st1 = st2)
    ∧ (∀ x, 0 ≤ x < 10000 ↔ ∃ st, st ∈ starts ∧ st ≤ x < chunk_end st 3000 10000).
Proof. apply (chunks_partition_rows 10000 3000); lia. Defined.

(** ** The row-chunk filter *)

Section row_chunk_filter.

Variables (start end_ : Z).

Lemma is_between_left_nat (k : nat) (r : list Value) :
  Polars.is_between_left start end_ (Polars.cell 0 (VInt (Z.of_nat k) :: r)) = true
  ↔ (Z.to_nat start ≤ k < Z.to_nat end_)%nat.
Proof. simpl. rewrite andb_true_iff, Z.leb_le, Z.ltb_lt. lia. Qed.

(** Filtering rows numbered from [k] on keeps a slice of them. *)
Lemma filter_numbered_rows (k : nat) (l : list (list Value)) :
  delete 0%nat <$>
    List.filter (λ r, Polars.is_between_left start end_ (Polars.cell 0 r))
      (imap (λ i r, VInt (Z.of_nat (k + i)) :: r) l)
  = take (Z.to_nat end_ - Z.to_nat start `max` k) (drop (Z.to_nat start - k) l).
Proof.
  revert k. induction l as [|x l IH]; intros k.
  - by rewrite drop_nil, take_nil.
  - rewrite imap_cons. cbn [List.filter].
    rewrite (imap_ext _ (λ i r, VInt (Z.of_nat (S k + i)) :: r))
      by (intros; simpl; do 2 f_equal; lia).
    rewrite Nat.add_0_r.
    destruct (Polars.is_between_left _ _ _) eqn:E.
    + apply is_between_left_nat in E. rewrite fmap_cons, IH. cbn [delete list_delete].
      replace (Z.to_nat start - k)%nat with 0%nat by lia.
      replace (Z.to_nat start - S k)%nat with 0%nat by lia.
      rewrite !drop_0.
      replace (Z.to_nat end_ - Z.to_nat start `max` k)%nat
        with (S (Z.to_nat end_ - Z.to_nat start `max` S k)) by lia.
      done.
    + assert (¬ (Z.to_nat start ≤ k < Z.to_nat end_)%nat) as Hout.
      { intros H. apply is_between_left_nat with (r := x) in H. congruence. }
      rewrite IH. destruct (decide (k < Z.to_nat start)%nat) as [Hlt|Hge].
      * replace (Z.to_nat start - k)%nat with (S (Z.to_nat start - S k)) by lia.
        cbn [drop]. f_equal. lia.
      * replace (Z.to_nat end_ - Z.to_nat start `max` S k)%nat with 0%nat by lia.
        replace (Z.to_nat end_ - Z.to_nat start `max` k)%nat with 0%nat by lia.
        done.
Qed.

End row_chunk_filter.

Lemma lookup_row_slice (start end_ : Z) (l : list (list Value)) (i : nat) r :
  l !! i = Some r ∧ start ≤ Z.of_nat i < end_
  ↔ ∃ j : nat, i = (Z.to_nat start + j)%nat ∧ row_slice start end_ l !! j = Some r.
Proof.
  unfold row_slice. split.
  - intros [Hl Hi]. exists (i - Z.to_nat start)%nat. split; [lia|].
    rewrite lookup_take_lt by lia. rewrite lookup_drop. rewrite <- Hl. f_equal. lia.
  - intros (j & -> & Hj).
    destruct (decide (j < Z.to_nat end_ - Z.to_nat start)%nat) as [Hlt|Hge].
    + rewrite lookup_take_lt in Hj by done. rewrite lookup_drop in Hj.
      split; [done | lia].
    + rewrite lookup_take_ge in Hj by lia. done.
Qed.

(** C5. Let a lazy table evaluate to a table [d] decorated with the row
    index column. The frame that [filter_to_row_chunk] builds from it
    evaluates to the columns of [d] (the index column is gone) and to the
    rows of [d] at the positions in [start, end): row [i] of [d] is in the
    output just when [start ≤ i < end], and the order of rows is kept. The
    function only builds a query plan: it has no access to the world, and
    the files are read when the plan is collected. *)
Theorem filter_to_row_chunk_rows (expand : Polars.Expand)
    (files : gmap Path DataFrame) (df : LazyFrame) (d t : DataFrame) (start end_ : Z) :
  Polars.with_row_index ROW_IDX_NAME d = Ok t →
  Polars.collect expand files df = Ok t →
  Polars.collect expand files (filter_to_row_chunk df start end_)
  = Ok (mkDataFrame (columns d) (row_slice start end_ (rows d)))
  ∧ ∀ (i : nat) r,
      rows d !! i = Some r ∧ start ≤ Z.of_nat i < end_
      ↔ ∃ j : nat, i = (Z.to_nat start + j)%nat
                   ∧ row_slice start end_ (rows d) !! j = Some r.
Proof.
  intros Hidx Hdf. split; [|intros; apply lookup_row_slice].
  unfold Polars.with_row_index in Hidx. case_bool_decide; [done|].
  injection Hidx as <-. unfold filter_to_row_chunk. cbn [Polars.collect].
  rewrite Hdf. cbn. do 2 f_equal.
  rewrite (imap_ext _ (λ i r, VInt (Z.of_nat (0 + i)) :: r)) by done.
  rewrite filter_numbered_rows. unfold row_slice. f_equal; [lia|]. f_equal. lia.
Qed.

Lemma filter_to_row_chunk_rows_witness :
  let d := mkDataFrame ["v"] [[VStr "a"]; [VStr "b"]; [VStr "c"]; [VStr "d"]] in
  let t := mkDataFrame [ROW_IDX_NAME; "v"]
             [[VInt 0; VStr "a"]; [VInt 1; VStr "b"];
              [VInt 2; VStr "c"]; [VInt 3; VStr "d"]] in
  Polars.collect Polars.no_match ∅ (filter_to_row_chunk (LLazy t) 1 3)
  = Ok (mkDataFrame ["v"] [[VStr "b"]; [VStr "c"]])
  ∧ ∀ (i : nat) r,
      rows d !! i = Some r ∧ 1 ≤ Z.of_nat i < 3
      ↔ ∃ j : nat, i = (Z.to_nat 1 + j)%nat ∧ row_slice 1 3 (rows d) !! j = Some r.
Proof.
  intros d t.
  apply (filter_to_row_chunk_rows Polars.no_match ∅ (LLazy t) d t 1 3); reflexivity.
Defined.

(** ** Paths *)

Section path_facts.

Local Arguments String.append !_ _ / : simpl nomatch.

Lemma valid_part_spec (x : string) :
  valid_part x = true ↔ x ≠ "" ∧ x ≠ "." ∧ PyStr.mem "/" x = false.
Proof.
  unfold valid_part. rewrite !andb_true_iff, !negb_true_iff, !eqb_false. tauto.
Qed.

Lemma valid_rel_spec (rel : Path) :
  valid_rel rel = true ↔ rel ≠ [] ∧ Forall (λ x, valid_part x = true) rel.
Proof.
  unfold valid_rel. rewrite andb_true_iff, negb_true_iff, bool_decide_eq_false.
  rewrite forallb_forall, Forall_forall. setoid_rewrite list_elem_of_In. tauto.
Qed.

Lemma valid_rel_snoc (rel : Path) :
  valid_rel rel = true →
  ∃ dir n, rel = dir ++ [n] ∧ Forall (λ x, valid_part x = true) dir
           ∧ valid_part n = true.
Proof.
  intros [Hne Hall]%valid_rel_spec.
  destruct (exists_last Hne) as (dir & n & -> ). exists dir, n.
  apply Forall_app in Hall as [? Hn]. by inversion Hn.
Qed.

Lemma valid_part_not_root (x : string) : valid_part x = true → String.eqb x "/" = false.
Proof.
  intros (_ & _ & H)%valid_part_spec. apply eqb_false. by intros ->.
Qed.

Lemma valid_not_absolute (p : Path) :
  Forall (λ x, valid_part x = true) p → PurePath.is_absolute p = false.
Proof. intros [|x l Hx _]; [done|]. simpl. by apply valid_part_not_root. Qed.

Lemma valid_part_startswith (x : string) :
  valid_part x = true → PyStr.startswith x "/" = false.
Proof.
  intros (_ & _ & H)%valid_part_spec. destruct x as [|a x]; [done|].
  simpl in *. by apply orb_false_iff in H as [-> _].
Qed.

Lemma parse_parts_part (x : string) : valid_part x = true → PurePath.parse_parts x = [x].
Proof.
  intros Hx. unfold PurePath.parse_parts. rewrite valid_part_startswith by done.
  apply valid_part_spec in Hx as (H1 & H2 & H3). rewrite split_no_sep by done.
  simpl. unfold PurePath.keep_part.
  apply eqb_false in H1, H2. by rewrite H1, H2.
Qed.

Lemma joinpath_part (p : Path) (x : string) :
  valid_part x = true → PurePath.joinpath p x = p ++ [x].
Proof.
  intros Hx. unfold PurePath.joinpath. rewrite parse_parts_part by done.
  simpl. by rewrite valid_part_not_root.
Qed.

Lemma split_app_sep c (x rest : string) :
  PyStr.mem c x = false →
  PyStr.split c (x +:+ String c rest) = x :: PyStr.split c rest.
Proof.
  induction x as [|a x IH]; simpl.
  - intros _. by rewrite Ascii.eqb_refl.
  - rewrite orb_false_iff. intros [-> Hx]. by rewrite IH.
Qed.

Lemma split_join (p : Path) :
  p ≠ [] → Forall (λ x, PyStr.mem "/" x = false) p →
  PyStr.split "/" (PyStr.join "/" p) = p.
Proof.
  induction p as [|x p IH]; [done|]. intros _ Hall.
  apply Forall_cons in Hall as [Hx Hp]. destruct p as [|y p].
  - simpl. by apply split_no_sep.
  - change (PyStr.join "/" (x :: y :: p))
      with (x +:+ String "/" (PyStr.join "/" (y :: p))).
    rewrite split_app_sep by done. by rewrite IH.
Qed.

Lemma startswith_join (x : string) (p : Path) :
  valid_part x = true → PyStr.startswith (PyStr.join "/" (x :: p)) "/" = false.
Proof.
  intros Hx. pose proof (valid_part_startswith x Hx) as Hs.
  apply valid_part_spec in Hx as (Hne & _).
  destruct x as [|a x]; [done|]. by destruct p.
Qed.

Lemma filter_keep_valid (p : Path) :
  Forall (λ x, valid_part x = true) p → List.filter PurePath.keep_part p = p.
Proof.
  induction 1 as [|x p Hx _ IH]; [done|]. simpl.
  apply valid_part_spec in Hx as (H1 & H2 & _). unfold PurePath.keep_part at 1.
  apply eqb_false in H1, H2. by rewrite H1, H2, IH.
Qed.

(** Parsing the text of a relative path gives the path back. *)
Lemma parse_parts_str (p : Path) :
  Forall (λ x, valid_part x = true) p → PurePath.parse_parts (PurePath.str p) = p.
Proof.
  intros Hall. destruct p as [|x p]; [done|].
  pose proof Hall as [Hx _]%Forall_cons.
  unfold PurePath.str. rewrite valid_part_not_root by done.
  unfold PurePath.parse_parts. rewrite startswith_join by done.
  rewrite split_join; [by apply filter_keep_valid | done |].
  eapply Forall_impl; [done|]. by intros y (_ & _ & ?)%valid_part_spec.
Qed.

Lemma stem_parts_valid (n : string) :
  PyStr.mem "/" n = false → Forall (λ x, valid_part x = true) (stem_parts n).
Proof.
  intros Hn. unfold stem_parts. destruct (String.eqb _ "") eqn:E; [done|].
  apply Forall_singleton, valid_part_spec. apply eqb_false in E.
  split; [done|]. split; [|by apply hd_split_mem_other].
  intros H. pose proof (hd_split_mem "." n) as Hd. by rewrite H in Hd.
Qed.

Lemma joinpath_stem (p : Path) (n : string) :
  PyStr.mem "/" n = false →
  PurePath.joinpath p (hd "" (PyStr.split "." n)) = p ++ stem_parts n.
Proof.
  intros Hn. pose proof (stem_parts_valid n Hn) as Hv. unfold stem_parts in *.
  destruct (String.eqb _ "") eqn:E.
  - apply eqb_true in E. by rewrite E.
  - rewrite Forall_singleton in Hv. by apply joinpath_part.
Qed.

Lemma shard_parts_valid (rel : Path) :
  valid_rel rel = true → Forall (λ x, valid_part x = true) (shard_parts rel).
Proof.
  intros (dir & n & -> & Hdir & Hn)%valid_rel_snoc. unfold shard_parts.
  rewrite removelast_last, last_last. apply Forall_app. split; [done|].
  apply stem_parts_valid. by apply valid_part_spec in Hn as (_ & _ & ?).
Qed.

Lemma relative_to_app (raw rel : Path) :
  valid_rel rel = true → PurePath.relative_to (raw ++ rel) raw = Ok rel.
Proof.
  intros [Hne Hall]%valid_rel_spec. unfold PurePath.relative_to.
  case_bool_decide as Hraw.
  - apply nil_length_inv in Hraw as ->. simpl.
    by rewrite valid_not_absolute.
  - rewrite take_app_length, bool_decide_false by naive_solver.
    by rewrite drop_app_length.
Qed.

Lemma name_rel (rel : Path) :
  valid_rel rel = true → PurePath.name rel = List.last rel "".
Proof.
  intros [_ Hall]%valid_rel_spec. unfold PurePath.name.
  by rewrite valid_not_absolute.
Qed.

Lemma name_app (raw rel : Path) :
  valid_rel rel = true → PurePath.name (raw ++ rel) = PurePath.name rel.
Proof.
  intros Hv. rewrite (name_rel rel Hv).
  apply valid_rel_snoc in Hv as (dir & n & -> & Hdir & Hn).
  unfold PurePath.name. rewrite app_assoc, !last_last.
  destruct (PurePath.is_absolute _ && _) eqn:E; [|done].
  apply andb_true_iff in E as [Habs Hlen]. apply bool_decide_eq_true in Hlen.
  rewrite length_app in Hlen. simpl in Hlen.
  destruct raw, dir; simpl in *; try lia.
  by rewrite valid_part_not_root in Habs.
Qed.

(** The two examples of the docstring of [get_shard_prefix]. *)
Example get_shard_prefix_doctest_1 :
  get_shard_prefix ["/"; "a"; "b"; "c"] ["/"; "a"; "b"; "c"; "d.parquet"] = Ok "d".
Proof. reflexivity. Qed.

Example get_shard_prefix_doctest_2 :
  get_shard_prefix ["/"; "a"; "b"; "c"] ["/"; "a"; "b"; "c"; "d"; "e.csv.gz"]
  = Ok "d/e".
Proof. reflexivity. Qed.

(** A path that is not below the base has no shard prefix. *)
Example get_shard_prefix_elsewhere :
  get_shard_prefix ["/"; "a"; "b"] ["/"; "a"; "c"; "d.csv"]
  = Err (ValueError "'/a/c/d.csv' is not in the subpath of '/a/b'").
Proof. reflexivity. Qed.

(** The shard prefix of a file below the root. *)
Lemma get_shard_prefix_rel (raw rel : Path) :
  valid_rel rel = true →
  get_shard_prefix raw (raw ++ rel) = Ok (PurePath.str (shard_parts rel)).
Proof.
  intros Hv. unfold get_shard_prefix. rewrite relative_to_app by done.
  cbn [rbind]. rewrite name_rel by done.
  pose proof Hv as [_ Hall]%valid_rel_spec.
  unfold PurePath.parent. rewrite valid_not_absolute by done. cbn [andb].
  apply valid_rel_snoc in Hv as (dir & n & -> & Hdir & Hn).
  unfold shard_parts. rewrite removelast_last, last_last.
  rewrite joinpath_stem; [done|]. by apply valid_part_spec in Hn as (_ & _ & ?).
Qed.

End path_facts.

(** ** Running loops *)

Lemma log_all_nil (w : World) : log_all [] w = w.
Proof. destruct w. unfold log_all. simpl. by rewrite app_nil_r. Qed.

Lemma log_all_entry lvl msg entries (w : World) :
  log_all entries (log_entry lvl msg w) = log_all ((lvl, msg) :: entries) w.
Proof. unfold log_all, log_entry. simpl. by rewrite <- app_assoc. Qed.

Lemma for_fold_app {A S} (l1 l2 : list A) (s : S) (body : S → A → M S) (w : World) :
  for_fold (l1 ++ l2) s body w
  = match for_fold l1 s body w with
    | (w', Ok s') => for_fold l2 s' body w'
    | (w', Err e) => (w', Err e)
    end.
Proof.
  revert s w. induction l1 as [|x l1 IH]; intros s w; [done|].
  simpl. unfold bind. destruct (body s x w) as [w' [s'|e]]; [apply IH | done].
Qed.

(** Two nested loops that share their variables are one loop. *)
Lemma for_fold_nested {A B S} (l : list A) (g : A → list B) (s : S)
    (body : S → B → M S) (w : World) :
  for_fold l s (λ vars x, for_fold (g x) vars body) w
  = for_fold (l ≫= g) s body w.
Proof.
  revert s w. induction l as [|x l IH]; intros s w; [done|].
  change ((x :: l) ≫= g) with (g x ++ (l ≫= g)). rewrite for_fold_app.
  simpl. unfold bind. destruct (for_fold (g x) s body w) as [w' [s'|e]]; [apply IH | done].
Qed.

(** A property of the world that every pass of a loop keeps holds after
    the loop, however it ends. *)
Lemma for_invariant {A} (I : World → Prop) (l : list A) (body : A → M unit) :
  (∀ x w w' r, x ∈ l → I w → body x w = (w', r) → I w') →
  ∀ w w' r, I w → for_ l body w = (w', r) → I w'.
Proof.
  induction l as [|x l IH]; intros Hbody w w' r Hw Hrun.
  - by injection Hrun as <- _.
  - simpl in Hrun. unfold bind in Hrun.
    destruct (body x w) as [w1 [[]|e]] eqn:E.
    + eapply IH; [|by eapply Hbody; [left|..]|done].
      intros y ????. apply Hbody. by right.
    + injection Hrun as <- _. eapply Hbody; [left|done..].
Qed.

(** ** Discovery and deduplication *)

Section selection.

Context (key : Path → string).

Lemma accepted_skipped_perm seen l : accepted_of key seen l ++ skipped_of key seen l ≡ₚ l.
Proof.
  revert seen. induction l as [|f l IH]; intros seen; [done|]. simpl.
  case_decide.
  - rewrite <- Permutation_middle. by rewrite IH.
  - simpl. by rewrite IH.
Qed.

Lemma accepted_fresh seen l f : f ∈ accepted_of key seen l → key f ∉ seen.
Proof.
  revert seen. induction l as [|x l IH]; intros seen; simpl; [by intros ?%elem_of_nil|].
  case_decide as Hx.
  - apply IH.
  - intros [->|Hin]%elem_of_cons; [done|]. apply IH in Hin. set_solver.
Qed.

Lemma accepted_keys_NoDup seen l : NoDup (key <$> accepted_of key seen l).
Proof.
  revert seen. induction l as [|x l IH]; intros seen; simpl; [constructor|].
  case_decide; [apply IH|]. rewrite fmap_cons. constructor; [|apply IH].
  intros (f & Hk & Hf%accepted_fresh)%list_elem_of_fmap. set_solver.
Qed.

Lemma accepted_covers seen l d :
  d ∈ l → key d ∈ seen ∨ ∃ f, f ∈ accepted_of key seen l ∧ key f = key d.
Proof.
  revert seen. induction l as [|x l IH]; intros seen; [by intros ?%elem_of_nil|].
  simpl. intros [->|Hin]%elem_of_cons.
  - case_decide; [by left|]. right. exists x. split; [left | done].
  - case_decide.
    + by apply IH.
    + destruct (IH ({[key x]} ∪ seen) Hin)
        as [[Hk%elem_of_singleton|?]%elem_of_union|(f & ? & ?)].
      * right. exists x. split; [left | done].
      * by left.
      * right. exists f. split; [by right | done].
Qed.

(** An accepted file is the first of the list with its key. *)
Lemma accepted_first seen l f :
  f ∈ accepted_of key seen l →
  ∃ l1 l2, l = l1 ++ f :: l2 ∧ ∀ d, d ∈ l1 → key d ≠ key f.
Proof.
  revert seen. induction l as [|x l IH]; intros seen; simpl; [by intros ?%elem_of_nil|].
  case_decide as Hx.
  - intros Hin. pose proof (accepted_fresh _ _ _ Hin) as Hf.
    destruct (IH _ Hin) as (l1 & l2 & -> & Hl1). exists (x :: l1), l2.
    split; [done|]. intros d [->|?]%elem_of_cons; [congruence | by apply Hl1].
  - intros [->|Hin]%elem_of_cons.
    + exists [], l. split; [done|]. by intros ? ?%elem_of_nil.
    + pose proof (accepted_fresh _ _ _ Hin) as Hf.
      destruct (IH _ Hin) as (l1 & l2 & -> & Hl1). exists (x :: l1), l2.
      split; [done|]. intros d [->|?]%elem_of_cons; [set_solver | by apply Hl1].
Qed.

Lemma accepted_elem_of seen l f : f ∈ accepted_of key seen l → f ∈ l.
Proof.
  intros Hin. rewrite <- (accepted_skipped_perm seen l). apply elem_of_app. by left.
Qed.

Lemma skipped_elem_of seen l f : f ∈ skipped_of key seen l → f ∈ l.
Proof.
  intros Hin. rewrite <- (accepted_skipped_perm seen l). apply elem_of_app. by right.
Qed.

Lemma discover_file_run (raw : Path) (f : Path) seen acc (w : World) :
  get_shard_prefix raw f = Ok (key f) →
  discover_file raw (seen, acc) f w
  = if decide (key f ∈ seen)
    then (log_entry WARNING (skip_warning f) w, Ok (seen, acc))
    else (w, Ok ({[key f]} ∪ seen, acc ++ [f])).
Proof.
  intros Hkey. unfold discover_file, bind, lift. rewrite Hkey.
  case_bool_decide; [by rewrite decide_True | by rewrite decide_False].
Qed.

Lemma for_fold_discover_file (raw : Path) (l : list Path) seen acc (w : World) :
  (∀ f, f ∈ l → get_shard_prefix raw f = Ok (key f)) →
  for_fold l (seen, acc) (discover_file raw) w
  = (log_all ((λ f, (WARNING, skip_warning f)) <$> skipped_of key seen l) w,
     Ok (list_to_set (key <$> accepted_of key seen l) ∪ seen, acc ++ accepted_of key seen l)).
Proof.
  revert seen acc w. induction l as [|f l IH]; intros seen acc w Hkey.
  - simpl. unfold ret. rewrite log_all_nil, app_nil_r. do 3 f_equal. set_solver.
  - assert (∀ f, f ∈ l → get_shard_prefix raw f = Ok (key f)) as Hl
      by (intros; apply Hkey; by right).
    cbn [for_fold accepted_of skipped_of]. unfold bind.
    rewrite discover_file_run by (apply Hkey; left).
    case_decide as Hin.
    + rewrite IH by done. by rewrite log_all_entry.
    + rewrite IH by done. rewrite fmap_cons, <- app_assoc. do 3 f_equal.
      set_solver.
Qed.

End selection.

Lemma elem_of_glob (raw : Path) (tree : list Path) (fmt : string) (f : Path) :
  f ∈ glob raw tree fmt
  ↔ ∃ rel, f = raw ++ rel ∧ rel ∈ tree
           ∧ PyStr.endswith (PurePath.name rel) ("." +:+ fmt) = true.
Proof.
  unfold glob. rewrite list_elem_of_fmap. setoid_rewrite list_elem_of_filter.
  naive_solver.
Qed.

Lemma elem_of_discovered (raw : Path) (tree : list Path) (f : Path) :
  f ∈ discovered raw tree
  ↔ ∃ fmt rel, fmt ∈ FORMATS ∧ f = raw ++ rel ∧ rel ∈ tree
               ∧ PyStr.endswith (PurePath.name rel) ("." +:+ fmt) = true.
Proof.
  unfold discovered. rewrite list_elem_of_bind. setoid_rewrite elem_of_glob.
  naive_solver.
Qed.

Lemma discovered_key (raw : Path) (tree : list Path) (f : Path) :
  tree_ok tree → f ∈ discovered raw tree →
  get_shard_prefix raw f = Ok (shard_key raw f).
Proof.
  intros Hok (fmt & rel & _ & -> & Hrel & _)%elem_of_discovered.
  rewrite get_shard_prefix_rel by by apply Hok.
  unfold shard_key. by rewrite drop_app_length.
Qed.

(** What discovery returns and what it logs. *)
Lemma discover_input_files_run (raw : Path) (tree : list Path) (w : World) :
  tree_ok tree →
  discover_input_files raw tree w
  = (log_all ((λ f, (WARNING, skip_warning f))
                <$> skipped_of (shard_key raw) ∅ (discovered raw tree)) w,
     Ok (accepted_of (shard_key raw) ∅ (discovered raw tree))).
Proof.
  intros Hok. unfold discover_input_files, bind.
  rewrite (for_fold_nested FORMATS (glob raw tree)).
  fold (discovered raw tree).
  rewrite (for_fold_discover_file (shard_key raw)); [done|].
  intros f Hf. by apply (discovered_key raw tree).
Qed.

Section format_preference.






Lemma accepted_prefixes (raw : Path) (tree : list Path) :
  tree_ok tree →
  get_shard_prefix raw <$> accepted_of (shard_key raw) ∅ (discovered raw tree)
  = Ok <$> (shard_key raw <$> accepted_of (shard_key raw) ∅ (discovered raw tree)).
Proof.
  intros Hok. rewrite <- list_fmap_compose. apply list_fmap_ext.
  intros _ f Hf%list_elem_of_lookup_2%accepted_elem_of. simpl.
  by apply (discovered_key raw tree).
Qed.

Lemma accepted_prefixes_NoDup (raw : Path) (tree : list Path) :
  tree_ok tree →
  NoDup (get_shard_prefix raw
           <$> accepted_of (shard_key raw) ∅ (discovered raw tree)).
Proof.
  intros Hok. rewrite accepted_prefixes by done.
  apply NoDup_fmap_2; [by intros ?? [=] | apply accepted_keys_NoDup].
Qed.

Lemma NoDup_fmap_eq {A B} (g : A → B) (l : list A) (x y : A) :
  NoDup (g <$> l) → x ∈ l → y ∈ l → g x = g y → x = y.
Proof.
  induction l as [|a l IH]; [by intros _ ?%elem_of_nil|].
  rewrite fmap_cons, NoDup_cons. intros [Ha Hl].
  intros [->|Hx]%elem_of_cons [->|Hy]%elem_of_cons Hg.
  - done.
  - destruct Ha. rewrite Hg. apply list_elem_of_fmap. by exists y.
  - destruct Ha. rewrite <- Hg. apply list_elem_of_fmap. by exists x.
  - by apply IH.
Qed.

End format_preference.





Lemma shard_parts_snoc (dir : Path) (n : string) :
  shard_parts (dir ++ [n]) = dir ++ stem_parts n.
Proof. unfold shard_parts. by rewrite removelast_last, last_last. Qed.

Lemma get_shard_prefix_snoc (raw dir : Path) (n : string) :
  valid_rel (dir ++ [n]) = true →
  get_shard_prefix raw (raw ++ dir ++ [n]) = Ok (PurePath.str (dir ++ stem_parts n)).
Proof. intros Hv. by rewrite get_shard_prefix_rel, shard_parts_snoc. Qed.

Lemma discovered_valid (raw : Path) (tree : list Path) (rel : Path) :
  tree_ok tree → raw ++ rel ∈ discovered raw tree → valid_rel rel = true.
Proof.
  intros Hok (fmt & rel' & _ & Heq & Hrel & _)%elem_of_discovered.
  apply app_inv_head in Heq as ->. by apply Hok.
Qed.

(** C9. The shard prefix of a file keeps of its name only what comes
    before the first dot: two files of one directory whose names agree up
    to their first dot have the same shard prefix; so have [data.2020.csv],
    [data.old.csv] and [data.csv], namely [data]. When discovery finds two
    such files with different names, it does not accept both, and one of
    them at least is among the skipped files, each of which gets a warning. *)
Theorem shard_prefix_cuts_at_first_dot (raw : Path) :
  (∀ dir n1 n2,
     valid_rel (dir ++ [n1]) = true → valid_rel (dir ++ [n2]) = true →
     hd "" (PyStr.split "." n1) = hd "" (PyStr.split "." n2) →
     get_shard_prefix raw (raw ++ dir ++ [n1])
     = Ok (PurePath.str (dir ++ stem_parts n1))
     ∧ get_shard_prefix raw (raw ++ dir ++ [n1])
       = get_shard_prefix raw (raw ++ dir ++ [n2]))
  ∧ (get_shard_prefix raw (raw ++ ["data.2020.csv"]) = Ok "data"
     ∧ get_shard_prefix raw (raw ++ ["data.old.csv"]) = Ok "data"
     ∧ get_shard_prefix raw (raw ++ ["data.csv"]) = Ok "data")
  ∧ (∀ tree w dir n1 n2,
       tree_ok tree →
       raw ++ dir ++ [n1] ∈ discovered raw tree →
       raw ++ dir ++ [n2] ∈ discovered raw tree →
       hd "" (PyStr.split "." n1) = hd "" (PyStr.split "." n2) → n1 ≠ n2 →
       ∃ accepted skipped,
         discover_input_files raw tree w
         = (log_all ((λ f, (WARNING, skip_warning f)) <$> skipped) w, Ok accepted)
         ∧ accepted ++ skipped ≡ₚ discovered raw tree
         ∧ ¬ (raw ++ dir ++ [n1] ∈ accepted ∧ raw ++ dir ++ [n2] ∈ accepted)
         ∧ (raw ++ dir ++ [n1] ∈ skipped ∨ raw ++ dir ++ [n2] ∈ skipped)).
Proof.
  assert (∀ dir n1 n2,
            valid_rel (dir ++ [n1]) = true → valid_rel (dir ++ [n2]) = true →
            hd "" (PyStr.split "." n1) = hd "" (PyStr.split "." n2) →
            get_shard_prefix raw (raw ++ dir ++ [n1])
            = get_shard_prefix raw (raw ++ dir ++ [n2])) as Hsame.
  { intros dir n1 n2 H1 H2 Hstem. rewrite !get_shard_prefix_snoc by done.
    unfold stem_parts. by rewrite Hstem. }
  split; [|split].
  - intros dir n1 n2 H1 H2 Hstem. split; [by apply get_shard_prefix_snoc | by apply Hsame].
  - split; [|split].
    + by apply (get_shard_prefix_snoc raw [] "data.2020.csv").
    + by apply (get_shard_prefix_snoc raw [] "data.old.csv").
    + by apply (get_shard_prefix_snoc raw [] "data.csv").
  - intros tree w dir n1 n2 Hok Hd1 Hd2 Hstem Hne.
    pose proof (discovered_valid _ _ _ Hok Hd1) as Hv1.
    pose proof (discovered_valid _ _ _ Hok Hd2) as Hv2.
    exists (accepted_of (shard_key raw) ∅ (discovered raw tree)),
           (skipped_of (shard_key raw) ∅ (discovered raw tree)).
    split; [by apply discover_input_files_run|].
    split; [apply accepted_skipped_perm|].
    assert (¬ (raw ++ dir ++ [n1] ∈ accepted_of (shard_key raw) ∅ (discovered raw tree)
               ∧ raw ++ dir ++ [n2] ∈ accepted_of (shard_key raw) ∅ (discovered raw tree)))
      as Hnot.
    { intros [Ha1 Ha2]. apply Hne.
      assert (raw ++ dir ++ [n1] = raw ++ dir ++ [n2]) as Heq.
      { eapply (NoDup_fmap_eq (get_shard_prefix raw));
          [by apply accepted_prefixes_NoDup | done.. | by apply Hsame]. }
      apply app_inv_head, app_inv_head in Heq. by injection Heq. }
    split; [done|].
    pose proof (accepted_skipped_perm (shard_key raw) ∅ (discovered raw tree)) as Hperm.
    rewrite <- Hperm in Hd1, Hd2.
    apply elem_of_app in Hd1 as [?|?]; [|by left].
    apply elem_of_app in Hd2 as [?|?]; [|by right].
    by destruct Hnot.
Qed.

Lemma shard_prefix_cuts_at_first_dot_witness :
  let raw := ["/"; "raw"] in
  let tree := [["data.2020.csv"]; ["data.old.csv"]] in
  (get_shard_prefix raw (raw ++ [] ++ ["data.2020.csv"]) = Ok "data"
   ∧ get_shard_prefix raw (raw ++ [] ++ ["data.2020.csv"])
     = get_shard_prefix raw (raw ++ [] ++ ["data.old.csv"]))
  ∧ ∃ accepted skipped,
      discover_input_files raw tree (Trial.world [])
      = (log_all ((λ f, (WARNING, skip_warning f)) <$> skipped) (Trial.world []),
         Ok accepted)
      ∧ accepted ++ skipped ≡ₚ discovered raw tree
      ∧ ¬ (raw ++ [] ++ ["data.2020.csv"] ∈ accepted
           ∧ raw ++ [] ++ ["data.old.csv"] ∈ accepted)
      ∧ (raw ++ [] ++ ["data.2020.csv"] ∈ skipped
         ∨ raw ++ [] ++ ["data.old.csv"] ∈ skipped).
Proof.
  intros raw tree.
  destruct (shard_prefix_cuts_at_first_dot raw) as (Hsame & _ & Hdisc).
  split.
  - apply (Hsame [] "data.2020.csv" "data.old.csv"); reflexivity.
  - apply (Hdisc tree (Trial.world []) [] "data.2020.csv" "data.old.csv").
    + intros rel Hrel. repeat (apply elem_of_cons in Hrel as [->|Hrel]; [done|]).
      by apply elem_of_nil in Hrel.
    + vm_compute. apply elem_of_cons. by left.
    + vm_compute. apply elem_of_cons. right. apply elem_of_cons. by left.
    + reflexivity.
    + discriminate.
Defined.

(** ** Decimal numerals in chunk names *)

Section numerals.

Local Arguments String.append !_ _ / : simpl nomatch.

Lemma pretty_N_char_digit (c : ascii) (d : N) :
  PyStr.mem c "0123456789" = false → Ascii.eqb (pretty_N_char d) c = false.
Proof.
  intros Hc. apply Ascii.eqb_neq. intros <-.
  unfold pretty_N_char in Hc. by repeat case_match.
Qed.

Lemma pretty_N_go_mem (c : ascii) (x : N) (s : string) :
  PyStr.mem c "0123456789" = false → PyStr.mem c s = false →
  PyStr.mem c (pretty_N_go x s) = false.
Proof.
  intros Hc. revert s. induction (N.lt_wf_0 x) as [x _ IH]; intros s Hs.
  destruct (decide (x = 0)%N) as [->|Hx]; [by rewrite pretty_N_go_0|].
  rewrite pretty_N_go_step by lia. apply IH.
  - apply N.div_lt; lia.
  - simpl. by rewrite pretty_N_char_digit, Hs.
Qed.

(** The numeral of a number that is not negative has digits only. *)
Lemma pretty_Z_mem (c : ascii) (z : Z) :
  PyStr.mem c "0123456789" = false → 0 ≤ z → PyStr.mem c (pretty z) = false.
Proof.
  intros Hc Hz. destruct z as [|x|x]; [| |lia].
  - change (pretty 0) with "0". cbn [PyStr.mem] in *.
    by apply orb_false_iff in Hc as [-> _].
  - unfold pretty, pretty_Z, pretty, pretty_positive, pretty, pretty_N.
    rewrite decide_False by done. by apply pretty_N_go_mem.
Qed.

Lemma pretty_Z_mem_slash (z : Z) : PyStr.mem "/" (pretty z) = false.
Proof.
  destruct (decide (0 ≤ z)) as [?|Hneg]; [by apply pretty_Z_mem|].
  destruct z as [|x|x]; [lia..|].
  unfold pretty, pretty_Z. simpl.
  unfold pretty, pretty_positive, pretty, pretty_N.
  rewrite decide_False by done. by apply pretty_N_go_mem.
Qed.

Lemma chunk_name_valid (st end_ : Z) : valid_part (chunk_name st end_) = true.
Proof.
  apply valid_part_spec. unfold chunk_name. split; [done|]. split; [done|].
  rewrite !mem_app, !pretty_Z_mem_slash. done.
Qed.

Lemma pretty_Z_mem_any (c : ascii) (z : Z) :
  PyStr.mem c "-0123456789" = false → PyStr.mem c (pretty z) = false.
Proof.
  intros Hc. cbn [PyStr.mem] in Hc. apply orb_false_iff in Hc as [Hminus Hc].
  destruct (decide (0 ≤ z)) as [?|Hneg]; [by apply pretty_Z_mem|].
  destruct z as [|x|x]; [lia..|].
  change (pretty (Z.neg x)) with ("-" +:+ pretty (N.pos x)).
  rewrite mem_app. cbn [PyStr.mem]. rewrite Hminus. cbn [orb].
  unfold pretty, pretty_N.
  rewrite decide_False by done. by apply pretty_N_go_mem.
Qed.

Lemma append_assoc (a b c : string) : (a +:+ b) +:+ c = a +:+ b +:+ c.
Proof. induction a as [|x a IH]; simpl; [done | by rewrite IH]. Qed.

(** The text of a path ends with its last part. *)
Lemma str_snoc (p : Path) (n : string) : ∃ pre, PurePath.str (p ++ [n]) = pre +:+ n.
Proof.
  assert (∀ l : Path, ∃ pre, PyStr.join "/" (l ++ [n]) = pre +:+ n) as Hjoin.
  { induction l as [|x l [pre IH]]; [by exists ""|].
    exists (x +:+ "/" +:+ pre). rewrite <- app_comm_cons. cbn [PyStr.join].
    destruct (l ++ [n]) eqn:E; [by destruct l|]. rewrite IH.
    by rewrite !append_assoc. }
  unfold PurePath.str. destruct p as [|r t]; cbn [app].
  - destruct (String.eqb n "/") eqn:E; [|by exists ""].
    apply eqb_true in E as ->. by exists "".
  - destruct (String.eqb r "/").
    + destruct (Hjoin t) as [pre ->]. by exists ("/" +:+ pre).
    + apply (Hjoin (r :: t)).
Qed.

(** The name of a chunk file holds an opening bracket, and no closing one
    after it: the path of a chunk file is a malformed glob pattern. *)
Lemma chunk_name_rfind (st end_ : Z) :
  PyStr.rfind "[" (chunk_name st end_) = Some 0%nat
  ∧ PyStr.mem "]" (chunk_name st end_) = false.
Proof.
  unfold chunk_name. split.
  - change ("[" +:+ pretty st +:+ "-" +:+ pretty end_ +:+ ").parquet")
      with (String "[" (pretty st +:+ "-" +:+ pretty end_ +:+ ").parquet")).
    cbn [PyStr.rfind].
    assert (PyStr.rfind "[" (pretty st +:+ "-" +:+ pretty end_ +:+ ").parquet") = None)
      as ->; [|done].
    apply rfind_None. by rewrite !mem_app, !pretty_Z_mem_any.
  - by rewrite !mem_app, !pretty_Z_mem_any.
Qed.

Lemma has_glob_chunk (p : Path) (st end_ : Z) :
  Polars.has_glob (p ++ [chunk_name st end_]) = true.
Proof.
  unfold Polars.has_glob. cbv zeta. destruct (str_snoc p (chunk_name st end_)) as [pre ->].
  rewrite !mem_app. unfold chunk_name at 3.
  change ("[" +:+ pretty st +:+ "-" +:+ pretty end_ +:+ ").parquet")
    with (String "[" (pretty st +:+ "-" +:+ pretty end_ +:+ ").parquet")).
  cbn [PyStr.mem]. rewrite Ascii.eqb_refl. by rewrite !orb_true_r.
Qed.

Lemma unclosed_bracket_chunk (p : Path) (st end_ : Z) :
  Polars.unclosed_bracket (p ++ [chunk_name st end_]) = true.
Proof.
  unfold Polars.unclosed_bracket. cbv zeta.
  destruct (str_snoc p (chunk_name st end_)) as [pre ->].
  destruct (chunk_name_rfind st end_) as [Hfind Hmem].
  rewrite rfind_app, Hfind, slice_from_app. cbn [PyStr.slice_from]. by rewrite Hmem.
Qed.

(** Up to the first occurrence of a separator, two equal texts agree. *)
Lemma app_sep_inj c (a b x y : string) :
  PyStr.mem c a = false → PyStr.mem c b = false →
  a +:+ String c x = b +:+ String c y → a = b.
Proof.
  revert b. induction a as [|p a IH]; intros [|q b]; simpl.
  - done.
  - intros _ Hq [= <- _]. by rewrite Ascii.eqb_refl in Hq.
  - intros Hp _ [= -> _]. by rewrite Ascii.eqb_refl in Hp.
  - rewrite !orb_false_iff. intros [_ Ha] [_ Hb] [= -> H]. f_equal. by apply IH.
Qed.

(** Chunks with different starts have different names. *)
Lemma chunk_name_inj (st1 e1 st2 e2 : Z) :
  0 ≤ st1 → 0 ≤ st2 → chunk_name st1 e1 = chunk_name st2 e2 → st1 = st2.
Proof.
  intros H1 H2. unfold chunk_name. simpl. intros [= H].
  apply app_sep_inj in H; [|by apply pretty_Z_mem..].
  by apply (inj pretty) in H.
Qed.

End numerals.

(** ** Running the work on one file *)

(** [scan_with_row_idx] only logs. *)
Lemma scan_with_row_idx_frame (fp : Path) (w w' : World) r :
  scan_with_row_idx fp w = (w', r) →
  fs w' = fs w ∧ calls w' = calls w ∧ dirs w' = dirs w
  ∧ ∃ entries, w' = log_all entries w ∧ ∀ e, e ∈ entries → e.1 = DEBUG.
Proof.
  rewrite scan_with_row_idx_run. cbv zeta.
  assert (∀ msg, log_entry DEBUG msg w = log_all [(DEBUG, msg)] w) as Hlog by done.
  repeat case_match; intros [= <- <-]; repeat split; try done.
  - eexists. split; [apply Hlog|]. by intros e ->%list_elem_of_singleton.
  - eexists. split; [apply Hlog|]. by intros e ->%list_elem_of_singleton.
  - exists []. split; [by rewrite log_all_nil|]. by intros e ?%elem_of_nil.
Qed.

Lemma scan_with_row_idx_ok (fp : Path) (w w' : World) (df : LazyFrame) :
  scan_with_row_idx fp w = (w', Ok df) → df = LScan fp ROW_IDX_NAME.
Proof.
  rewrite scan_with_row_idx_run. cbv zeta. by repeat case_match; intros [= <- <-].
Qed.

Lemma scan_with_row_idx_globs (fp : Path) (w w' : World) r :
  scan_with_row_idx fp w = (w', r) → globs w' = globs w.
Proof. by intros (_ & _ & _ & entries & -> & _)%scan_with_row_idx_frame. Qed.

(** A path free of glob characters is read by name, whatever the expansion. *)
Lemma read_table_plain (expand : Polars.Expand) (files : gmap Path DataFrame)
    (fp : Path) (name : string) :
  Polars.has_glob fp = false →
  Polars.read_table expand files fp name = Polars.read_literal files fp name.
Proof. intros H. unfold Polars.read_table. by rewrite H. Qed.

(** With the expansion that finds no file, only such a path can be read. *)
Lemma read_table_no_match (files : gmap Path DataFrame) (fp : Path) (name : string)
    (t : DataFrame) :
  Polars.read_table Polars.no_match files fp name = Ok t →
  Polars.has_glob fp = false ∧ Polars.read_literal files fp name = Ok t.
Proof.
  unfold Polars.read_table. destruct (Polars.has_glob fp); [|done].
  by destruct (Polars.unclosed_bracket fp).
Qed.

(** The compute wrapper on the reader, the writer and the chunk filter of
    the script. *)
Lemma rwlock_wrap_run (f out_fp : Path) (st end_ : Z) (ov : bool) (w : World) :
  rwlock_wrap f out_fp scan_with_row_idx write_fn
    (λ df, filter_to_row_chunk df st end_) ov w
  = if bool_decide (is_Some (fs w !! out_fp)) && negb ov then (w, Ok tt)
    else match scan_with_row_idx f w with
         | (w1, Err e) => (w1, Err e)
         | (w1, Ok df) =>
             match Polars.collect (globs w1) (fs w1)
                     (filter_to_row_chunk df st end_) with
             | Err e => (w1, Err e)
             | Ok table => (set_fs (<[out_fp := table]> (fs w1)) w1, Ok tt)
             end
         end.
Proof.
  unfold rwlock_wrap, bind at 1, get_fs.
  destruct (_ && _); [done|]. unfold bind at 1.
  destruct (scan_with_row_idx f w) as [w1 [df|e]]; [|done].
  unfold write_fn, bind, polars_collect.
  by destruct (Polars.collect _ _ _).
Qed.

Lemma main_chunk_run (cfg : Cfg) (f out_dir : Path) (R st : Z) (w : World) :
  main_chunk cfg f out_dir R st w
  = let c := chunk_call cfg f out_dir R st in
    rwlock_wrap f (call_out c) scan_with_row_idx write_fn
      (λ df, filter_to_row_chunk df st (call_end c)) (do_overwrite cfg)
      (add_call c (log_entry INFO (chunk_info cfg f out_dir R st) w)).
Proof. done. Qed.

(** One chunk adds its call to the trace, whatever comes of it. *)
Lemma main_chunk_calls (cfg : Cfg) (f out_dir : Path) (R st : Z) (w w' : World) r :
  main_chunk cfg f out_dir R st w = (w', r) →
  calls w' = calls w ++ [chunk_call cfg f out_dir R st].
Proof.
  rewrite main_chunk_run. cbv zeta. rewrite rwlock_wrap_run.
  destruct (_ && _); [by intros [= <- _]|].
  destruct (scan_with_row_idx _ _) as [w1 [df|e]] eqn:E;
    apply scan_with_row_idx_frame in E as (_ & Hc & _).
  - destruct (Polars.collect _ _ _); intros [= <- _]; simpl; by rewrite Hc.
  - intros [= <- _]. by rewrite Hc.
Qed.

(** [main_file], step by step. *)
Lemma main_file_run (cfg : Cfg) (rng : Shuffle) (f : Path) (w : World) :
  main_file cfg rng f w
  = match get_shard_prefix (PurePath.parse_parts (raw_cohort_dir cfg)) f with
    | Err e => (w, Err e)
    | Ok prefix =>
        let out_dir := out_dir_of cfg prefix in
        match scan_with_row_idx f
                (log_entry INFO (file_info f out_dir) (add_dirs out_dir w)) with
        | (w2, Err e) => (w2, Err e)
        | (w2, Ok df) =>
            match (let? counted :=
                     Polars.collect (globs w2) (fs w2) (LSelectLen df) in
                   let? row_count := Polars.item counted in
                   let? row_shards := py_range 0 row_count (row_chunksize cfg) in
                   Ok (row_count, row_shards)) with
            | Err e => (w2, Err e)
            | Ok (row_count, row_shards) =>
                let row_shards := shuffle_rows rng f row_shards in
                for_ row_shards (main_chunk cfg f out_dir row_count)
                  (log_entry INFO (split_info cfg f row_shards) w2)
            end
        end
    end.
Proof.
  unfold main_file, bind at 1, lift at 1.
  destruct (get_shard_prefix _ f) as [prefix|e]; [|done]. cbv zeta.
  unfold bind at 1, mkdir_parents. unfold bind at 1, logger_info at 1, log at 1.
  cbn [cwd fs dirs logs calls]. unfold bind at 1.
  fold (out_dir_of cfg prefix).
  change (mkWorld _ _ _ _ _ _)
    with (log_entry INFO (file_info f (out_dir_of cfg prefix))
            (add_dirs (out_dir_of cfg prefix) w)).
  destruct (scan_with_row_idx f _) as [w2 [df|e]]; [|done].
  unfold bind at 1, polars_collect at 1.
  destruct (Polars.collect (globs w2) (fs w2) (LSelectLen df)) as [counted|e]; [|done].
  cbn [rbind]. unfold bind at 1, lift at 1.
  destruct (Polars.item counted) as [row_count|e]; [|done].
  cbn [rbind]. unfold bind at 1, lift at 1.
  destruct (py_range 0 row_count (row_chunksize cfg)) as [row_shards|e]; [|done].
  cbn [rbind]. by unfold bind at 1, logger_info at 1, log at 1.
Qed.

Lemma holds_rows_scan (w w1 : World) (f : Path) (R : Z) :
  holds_rows w f R → fs w1 = fs w →
  ∃ entries,
    scan_with_row_idx f w1 = (log_all entries w1, Ok (LScan f ROW_IDX_NAME))
    ∧ (∀ e, e ∈ entries → e.1 = DEBUG)
    ∧ (let? counted :=
         Polars.collect (globs w1) (fs w1) (LSelectLen (LScan f ROW_IDX_NAME)) in
       Polars.item counted) = Ok R.
Proof.
  intros (Hsfx & Hplain & df & Hdf & Hcol & Hrows) Hfs.
  destruct (scan_with_row_idx f w1) as [w2 r] eqn:E.
  pose proof (scan_with_row_idx_frame _ _ _ _ E) as (_ & _ & _ & entries & -> & Hdbg).
  exists entries. split; [|split; [done|]].
  - f_equal. rewrite scan_with_row_idx_run in E. cbv zeta in E.
    apply elem_of_cons in Hsfx as [Hs|Hs%list_elem_of_singleton]; rewrite Hs in E.
    + cbn in E. by injection E as _ <-.
    + cbn in E. by injection E as _ <-.
  - cbn [Polars.collect globs log_all]. rewrite read_table_plain by done.
    unfold Polars.read_literal. rewrite Hfs, Hdf.
    unfold Polars.with_row_index. rewrite bool_decide_false by done.
    cbn. by rewrite length_imap, Hrows.
Qed.

(** [main_file] on a readable file, up to the loop over its chunks. *)
Lemma main_file_readable (cfg : Cfg) (rng : Shuffle) (f : Path) (w : World)
    (prefix : string) (R : Z) :
  get_shard_prefix (PurePath.parse_parts (raw_cohort_dir cfg)) f = Ok prefix →
  holds_rows w f R →
  ∃ entries,
    (∀ e, e ∈ entries → e.1 ≠ WARNING)
    ∧ main_file cfg rng f w
      = match py_range 0 R (row_chunksize cfg) with
        | Err e => (log_all entries (add_dirs (out_dir_of cfg prefix) w), Err e)
        | Ok row_shards =>
            let row_shards := shuffle_rows rng f row_shards in
            for_ row_shards (main_chunk cfg f (out_dir_of cfg prefix) R)
              (log_entry INFO (split_info cfg f row_shards)
                 (log_all entries (add_dirs (out_dir_of cfg prefix) w)))
        end.
Proof.
  intros Hprefix Hrows. rewrite main_file_run, Hprefix. cbv zeta.
  set (out_dir := out_dir_of cfg prefix).
  destruct (holds_rows_scan w
              (log_entry INFO (file_info f out_dir) (add_dirs out_dir w)) f R Hrows eq_refl)
    as (entries & -> & Hdbg & Hcount).
  exists ((INFO, file_info f out_dir) :: entries). split.
  { intros e [->|He%Hdbg]%elem_of_cons; [done|]. by rewrite He. }
  rewrite log_all_entry.
  cbn [fs globs log_entry add_dirs log_all] in *.
  destruct (Polars.collect (globs w) (fs w) _) as [counted|e]; [|done].
  cbn [rbind] in *.
  rewrite Hcount. cbn [rbind]. by destruct (py_range 0 R (row_chunksize cfg)).
Qed.

Lemma shuffle_rows_nil (rng : Shuffle) (f : Path) :
  shuffle_ok rng → shuffle_rows rng f [] = [].
Proof. intros [_ H]. apply Permutation_nil_r. by rewrite H. Qed.

Lemma shuffle_files_nil (rng : Shuffle) : shuffle_ok rng → shuffle_files rng [] = [].
Proof. intros [H _]. apply Permutation_nil_r. by rewrite H. Qed.

(** With no chunk starts, [main_file] ends normally without a call of the
    wrapper, without a write and without a warning. *)
Lemma main_file_no_chunks (cfg : Cfg) (rng : Shuffle) (f : Path) (w : World)
    (prefix : string) (R : Z) :
  shuffle_ok rng →
  get_shard_prefix (PurePath.parse_parts (raw_cohort_dir cfg)) f = Ok prefix →
  holds_rows w f R → py_range 0 R (row_chunksize cfg) = Ok [] →
  ∃ w' entries,
    main_file cfg rng f w = (w', Ok tt)
    ∧ calls w' = calls w ∧ fs w' = fs w
    ∧ logs w' = logs w ++ entries ∧ ∀ e, e ∈ entries → e.1 ≠ WARNING.
Proof.
  intros Hrng Hprefix Hrows Hrange.
  destruct (main_file_readable cfg rng f w prefix R Hprefix Hrows)
    as (entries & Hent & -> ).
  rewrite Hrange. cbv zeta. rewrite shuffle_rows_nil by done.
  eexists. exists (entries ++ [(INFO, split_info cfg f [])]).
  split; [done|]. cbn. split; [done|]. split; [done|].
  split; [by rewrite <- app_assoc|].
  intros e [?| ->%list_elem_of_singleton]%elem_of_app; [by apply Hent | done].
Qed.

(** C8. Let the input file hold a table without rows, and let the chunk
    size be other than zero. Then there are no chunk starts, and the work
    on this file ends normally: the wrapper is not called and no file is
    written. *)
Theorem zero_rows_no_work_items (cfg : Cfg) (rng : Shuffle) (f : Path) (w : World)
    (prefix : string) :
  shuffle_ok rng → row_chunksize cfg ≠ 0 →
  get_shard_prefix (PurePath.parse_parts (raw_cohort_dir cfg)) f = Ok prefix →
  holds_rows w f 0 →
  py_range 0 0 (row_chunksize cfg) = Ok []
  ∧ ∃ w', main_file cfg rng f w = (w', Ok tt)
          ∧ calls w' = calls w ∧ fs w' = fs w.
Proof.
  intros Hrng HC Hprefix Hrows.
  assert (py_range 0 0 (row_chunksize cfg) = Ok []) as Hrange.
  { unfold py_range, range_len. destruct (Z.eqb_spec (row_chunksize cfg) 0); [done|].
    by rewrite !andb_false_r. }
  split; [done|].
  destruct (main_file_no_chunks cfg rng f w prefix 0) as (w' & _ & ? & ? & ? & _);
    [done..|]. by exists w'.
Qed.

Lemma holds_rows_trial (f : Path) (n : nat) :
  PyStr.lower (PurePath.suffix f) = ".parquet" → Polars.has_glob f = false →
  holds_rows (Trial.world [(f, Trial.table n)]) f (Z.of_nat n).
Proof.
  intros Hs Hplain. split; [rewrite Hs; set_solver|]. split; [done|].
  exists (Trial.table n).
  split; [apply lookup_insert_eq|]. split; [set_solver|].
  simpl. by rewrite length_fmap, length_seq.
Qed.

Lemma zero_rows_no_work_items_witness :
  let f := ["/"; "raw"; "d"; "e.parquet"] in
  let w := Trial.world [(f, Trial.table 0)] in
  py_range 0 0 3 = Ok []
  ∧ ∃ w', main_file (Trial.cfg 3) Trial.keep f w = (w', Ok tt)
          ∧ calls w' = calls w ∧ fs w' = fs w.
Proof.
  intros f w.
  apply (zero_rows_no_work_items (Trial.cfg 3) Trial.keep f w "d/e").
  - by split.
  - simpl. lia.
  - reflexivity.
  - by apply (holds_rows_trial f 0).
Defined.

(** C10. The chunk size is read from the configuration and used as it is:
    with no input file, [main] ends normally whatever the chunk size. For a
    file of [R > 0] rows, a chunk size of zero makes the computation of the
    chunk starts raise a [ValueError], which ends [main_file]; a negative
    chunk size gives no chunk start at all, and [main_file] ends normally
    with no call of the wrapper, no write and no warning in the log. *)
Theorem row_chunksize_not_validated (cfg : Cfg) (rng : Shuffle) (f : Path)
    (w : World) (prefix : string) (R : Z) :
  shuffle_ok rng →
  get_shard_prefix (PurePath.parse_parts (raw_cohort_dir cfg)) f = Ok prefix →
  holds_rows w f R → 0 < R →
  (∃ w', main cfg [] rng w = (w', Ok tt))
  ∧ (row_chunksize cfg = 0 →
       py_range 0 R (row_chunksize cfg)
       = Err (ValueError "range() arg 3 must not be zero")
       ∧ ∃ w', main_file cfg rng f w
               = (w', Err (ValueError "range() arg 3 must not be zero"))
               ∧ calls w' = calls w ∧ fs w' = fs w)
  ∧ (row_chunksize cfg < 0 →
       py_range 0 R (row_chunksize cfg) = Ok []
       ∧ ∃ w' entries,
           main_file cfg rng f w = (w', Ok tt)
           ∧ calls w' = calls w ∧ fs w' = fs w
           ∧ logs w' = logs w ++ entries ∧ ∀ e, e ∈ entries → e.1 ≠ WARNING).
Proof.
  intros Hrng Hprefix Hrows HR. split; [|split].
  - unfold main, bind at 1, hydra_loguru_init, ret at 1.
    unfold bind at 1. rewrite discover_input_files_run
      by by intros ? ?%elem_of_nil.
    change (discovered _ []) with (@nil Path). cbn [accepted_of skipped_of fmap list_fmap].
    unfold bind at 1, logger_info at 1, log at 1.
    unfold bind at 1, get_cwd at 1. unfold bind at 1, logger_info at 1, log at 1.
    cbn [length]. rewrite shuffle_files_nil by done. by eexists.
  - intros HC.
    assert (py_range 0 R (row_chunksize cfg)
            = Err (ValueError "range() arg 3 must not be zero")) as Hrange
      by by rewrite HC.
    split; [done|].
    destruct (main_file_readable cfg rng f w prefix R Hprefix Hrows)
      as (entries & _ & -> ).
    rewrite Hrange. by eexists.
  - intros HC.
    assert (py_range 0 R (row_chunksize cfg) = Ok []) as Hrange.
    { unfold py_range, range_len. destruct (Z.eqb_spec (row_chunksize cfg) 0); [lia|].
      destruct (Z.ltb_spec 0 (row_chunksize cfg)); [lia|].
      destruct (Z.ltb_spec R 0); [lia|]. by rewrite andb_false_r. }
    split; [done|]. by apply (main_file_no_chunks cfg rng f w prefix R).
Qed.

Lemma row_chunksize_not_validated_witness :
  let f := ["/"; "raw"; "d"; "e.parquet"] in
  let w := Trial.world [(f, Trial.table 5)] in
  (∃ w', main_file (Trial.cfg 0) Trial.keep f w
         = (w', Err (ValueError "range() arg 3 must not be zero"))
         ∧ calls w' = calls w ∧ fs w' = fs w)
  ∧ (∃ w' entries,
       main_file (Trial.cfg (-2)) Trial.keep f w = (w', Ok tt)
       ∧ calls w' = calls w ∧ fs w' = fs w
       ∧ logs w' = logs w ++ entries ∧ ∀ e, e ∈ entries → e.1 ≠ WARNING).
Proof.
  intros f w.
  assert (shuffle_ok Trial.keep) as Hrng by by split.
  assert (holds_rows w f 5) as Hrows by by apply (holds_rows_trial f 5).
  split.
  - apply (row_chunksize_not_validated (Trial.cfg 0) Trial.keep f w "d/e" 5);
      [done | reflexivity | done | lia | reflexivity].
  - apply (row_chunksize_not_validated (Trial.cfg (-2)) Trial.keep f w "d/e" 5);
      [done | reflexivity | done | lia | simpl; lia].
Defined.

(** ** Running [main] *)

Lemma main_run (cfg : Cfg) (tree : list Path) (rng : Shuffle) (w : World) :
  tree_ok tree →
  main cfg tree rng w
  = for_ (shuffle_files rng (accepted_files cfg tree)) (main_file cfg rng)
      (log_all (main_entries cfg tree (cwd w)) w).
Proof.
  intros Hok. unfold main, bind at 1, hydra_loguru_init, ret at 1.
  unfold bind at 1. rewrite discover_input_files_run by done.
  unfold bind at 1, logger_info at 1, log at 1.
  unfold bind at 1, get_cwd at 1. unfold bind at 1, logger_info at 1, log at 1.
  f_equal. unfold log_all, main_entries, accepted_files. cbn [cwd fs dirs logs calls].
  f_equal. by rewrite <- !app_assoc.
Qed.

Lemma accepted_files_rel (cfg : Cfg) (tree : list Path) (f : Path) :
  tree_ok tree → f ∈ accepted_files cfg tree →
  ∃ rel, rel ∈ tree ∧ f = PurePath.parse_parts (raw_cohort_dir cfg) ++ rel
         ∧ valid_rel rel = true.
Proof.
  intros Hok (fmt & rel & _ & -> & Hrel & _)%accepted_elem_of%elem_of_discovered.
  exists rel. split; [done|]. split; [done|]. by apply Hok.
Qed.

(** The output directory of a file below the raw root. *)
Lemma out_dir_of_rel (cfg : Cfg) (rel : Path) :
  valid_rel rel = true →
  out_dir_of cfg (PurePath.str (shard_parts rel))
  = PurePath.parse_parts (MEDS_cohort_dir cfg) ++ ["sub_sharded"] ++ shard_parts rel.
Proof.
  intros Hv. unfold out_dir_of. rewrite (joinpath_part _ "sub_sharded") by done.
  unfold PurePath.joinpath at 1.
  pose proof (shard_parts_valid rel Hv) as Hparts.
  rewrite parse_parts_str, valid_not_absolute by done. by rewrite <- app_assoc.
Qed.


(** ** The shard identity in the words of the specification *)

Section spec_identity.

Local Arguments String.append !_ _ / : simpl nomatch.



End spec_identity.

(** ** Discovery by the identity of the specification *)

Lemma str_valid_inj (p q : Path) :
  Forall (λ x, valid_part x = true) p → Forall (λ x, valid_part x = true) q →
  PurePath.str p = PurePath.str q → p = q.
Proof.
  intros Hp Hq H. rewrite <- (parse_parts_str p Hp), <- (parse_parts_str q Hq).
  by rewrite H.
Qed.







(** ** The effect of the calls on the file system *)

Section call_effects.

Context (ov : bool) (fs0 : gmap Path DataFrame).

Lemma apply_calls_app (l1 l2 : list WrapCall) (m : gmap Path DataFrame) :
  apply_calls ov fs0 (l1 ++ l2) m = apply_calls ov fs0 l2 (apply_calls ov fs0 l1 m).
Proof. revert m. induction l1 as [|c l1 IH]; intros m; [done | apply IH]. Qed.

Lemma lookup_apply_call_ne (c : WrapCall) (m : gmap Path DataFrame) (k : Path) :
  call_out c ≠ k → apply_call ov fs0 c m !! k = m !! k.
Proof.
  intros Hne. unfold apply_call. destruct (_ && _); [done|].
  destruct (call_table fs0 c); [by rewrite lookup_insert_ne | done].
Qed.

Lemma lookup_apply_calls_ne (l : list WrapCall) (m : gmap Path DataFrame) (k : Path) :
  (∀ c, c ∈ l → call_out c ≠ k) → apply_calls ov fs0 l m !! k = m !! k.
Proof.
  revert m. induction l as [|c l IH]; intros m Hl; [done|]. simpl.
  rewrite IH by (intros; apply Hl; by right).
  apply lookup_apply_call_ne, Hl. by left.
Qed.

(** Calls with different outputs commute. *)
Lemma apply_call_comm (c1 c2 : WrapCall) (m : gmap Path DataFrame) :
  call_out c1 ≠ call_out c2 →
  apply_call ov fs0 c2 (apply_call ov fs0 c1 m)
  = apply_call ov fs0 c1 (apply_call ov fs0 c2 m).
Proof.
  intros Hne. unfold apply_call at 1 3.
  rewrite !lookup_apply_call_ne by done.
  unfold apply_call.
  destruct (bool_decide (is_Some (m !! call_out c1)) && negb ov),
    (bool_decide (is_Some (m !! call_out c2)) && negb ov); try done.
  destruct (call_table fs0 c1), (call_table fs0 c2); try done.
  by apply insert_insert_ne.
Qed.

(** With pairwise different outputs, the order of the calls is of no
    account. *)
Lemma apply_calls_perm (l1 l2 : list WrapCall) (m : gmap Path DataFrame) :
  l1 ≡ₚ l2 → NoDup (call_out <$> l1) →
  apply_calls ov fs0 l1 m = apply_calls ov fs0 l2 m.
Proof.
  intros Hperm. revert m.
  induction Hperm as [|c l1 l2 _ IH|c1 c2 l|l1 l2 l3 H12 IH12 H23 IH23]; intros m Hnd.
  - done.
  - simpl. apply IH. rewrite fmap_cons in Hnd. by apply NoDup_cons in Hnd as [_ ?].
  - simpl. f_equal. apply apply_call_comm.
    rewrite !fmap_cons in Hnd. apply NoDup_cons in Hnd as [Hin _].
    intros Heq. apply Hin. rewrite Heq. by left.
  - rewrite IH12 by done. apply IH23. by rewrite <- H12.
Qed.

End call_effects.

(** Reading a chunk of a file looks at that file only. *)
Lemma call_table_ext (fs1 fs2 : gmap Path DataFrame) (c : WrapCall) :
  fs1 !! call_in c = fs2 !! call_in c → call_table fs1 c = call_table fs2 c.
Proof.
  intros H. unfold call_table, filter_to_row_chunk. cbn [Polars.collect].
  unfold Polars.read_table, Polars.read_literal. by rewrite H.
Qed.

Lemma probe_ext (fs1 fs2 : gmap Path DataFrame) (f : Path) :
  fs1 !! f = fs2 !! f → probe fs1 f = probe fs2 f.
Proof.
  intros H. unfold probe. cbn [Polars.collect].
  unfold Polars.read_table, Polars.read_literal. by rewrite H.
Qed.

Lemma probe_nonneg (files : gmap Path DataFrame) (f : Path) (R : Z) :
  probe files f = Ok R → 0 ≤ R.
Proof.
  unfold probe. cbn [Polars.collect].
  destruct (Polars.read_table _ files f ROW_IDX_NAME); [|done].
  cbn. intros [= <-]. lia.
Qed.

(** What a run reads from a path free of glob characters is what reading
    by name gives. *)
Lemma collect_chunk_plain (expand : Polars.Expand) (files : gmap Path DataFrame)
    (f : Path) (st end_ : Z) :
  Polars.has_glob f = false →
  Polars.collect expand files (filter_to_row_chunk (LScan f ROW_IDX_NAME) st end_)
  = call_table files (mkWrapCall f [] st end_).
Proof.
  intros H. unfold call_table, filter_to_row_chunk. cbn [Polars.collect call_in].
  by rewrite !read_table_plain.
Qed.

Lemma collect_len_plain (expand : Polars.Expand) (files : gmap Path DataFrame)
    (f : Path) :
  Polars.has_glob f = false →
  (let? counted := Polars.collect expand files (LSelectLen (LScan f ROW_IDX_NAME)) in
   Polars.item counted) = probe files f.
Proof.
  intros H. unfold probe. cbn [Polars.collect]. by rewrite !read_table_plain.
Qed.

Lemma call_table_out (fs0 : gmap Path DataFrame) (c : WrapCall) (out : Path) :
  call_table fs0 (mkWrapCall (call_in c) out (call_start c) (call_end c))
  = call_table fs0 c.
Proof. done. Qed.

Section normal_runs.

Context (cfg : Cfg) (rng : Shuffle) (fs0 : gmap Path DataFrame) (inputs : list Path).

Lemma inputs_kept_apply_calls (l : list WrapCall) (m : gmap Path DataFrame) :
  (∀ c, c ∈ l → call_out c ∉ inputs) → inputs_kept fs0 inputs m →
  inputs_kept fs0 inputs (apply_calls (do_overwrite cfg) fs0 l m).
Proof.
  intros Hout Hm g Hg. rewrite lookup_apply_calls_ne; [by apply Hm|].
  intros c Hc Heq. apply (Hout c Hc). by rewrite Heq.
Qed.

Lemma main_chunk_ok (f out_dir : Path) (R st : Z) (w w' : World) :
  Polars.has_glob f = false →
  main_chunk cfg f out_dir R st w = (w', Ok tt) → fs w !! f = fs0 !! f →
  fs w' = apply_call (do_overwrite cfg) fs0 (chunk_call cfg f out_dir R st) (fs w)
  ∧ calls w' = calls w ++ [chunk_call cfg f out_dir R st].
Proof.
  intros Hplain Hrun Hf. split; [|by eapply main_chunk_calls].
  revert Hrun. rewrite main_chunk_run. cbv zeta. rewrite rwlock_wrap_run.
  unfold apply_call. cbn [fs add_call log_entry].
  destruct (_ && _); [by intros [= <- ]|].
  destruct (scan_with_row_idx _ _) as [w1 [df|e]] eqn:E; [|done].
  pose proof (scan_with_row_idx_ok _ _ _ _ E) as ->.
  apply scan_with_row_idx_frame in E as (Hfs & _). cbn in Hfs.
  rewrite (call_table_ext fs0 (fs w1)) by (cbn; by rewrite Hfs, Hf).
  rewrite collect_chunk_plain by done.
  rewrite <- (call_table_out (fs w1) (chunk_call cfg f out_dir R st) []).
  cbn [call_in call_start call_end chunk_call].
  destruct (call_table _ _); [|done]. intros [= <-]. cbn. by rewrite Hfs.
Qed.

Lemma chunks_ok (f out_dir : Path) (R : Z) (row_shards : list Z) (w w' : World) :
  Polars.has_glob f = false →
  for_ row_shards (main_chunk cfg f out_dir R) w = (w', Ok tt) →
  fs w !! f = fs0 !! f →
  (∀ st, st ∈ row_shards → call_out (chunk_call cfg f out_dir R st) ≠ f) →
  fs w' = apply_calls (do_overwrite cfg) fs0
            (chunk_call cfg f out_dir R <$> row_shards) (fs w)
  ∧ calls w' = calls w ++ (chunk_call cfg f out_dir R <$> row_shards).
Proof.
  intros Hplain. revert w.
  induction row_shards as [|st l IH]; intros w Hrun Hf Hout.
  - injection Hrun as <-. by rewrite app_nil_r.
  - cbn [for_] in Hrun. unfold bind in Hrun.
    destruct (main_chunk cfg f out_dir R st w) as [w1 [[]|e]] eqn:E; [|done].
    apply main_chunk_ok in E as [Hfs1 Hcalls1]; [|done..].
    destruct (IH w1 Hrun) as [Hfs' Hcalls'].
    + rewrite Hfs1, lookup_apply_call_ne; [done|]. apply Hout. by left.
    + intros; apply Hout; by right.
    + rewrite fmap_cons. cbn [apply_calls]. rewrite Hfs', Hcalls', Hfs1, Hcalls1.
      by rewrite <- app_assoc.
Qed.

Lemma main_file_ok (f : Path) (w w' : World) :
  Polars.has_glob f = false →
  main_file cfg rng f w = (w', Ok tt) → fs w !! f = fs0 !! f →
  (∀ c, c ∈ file_calls cfg fs0 (shuffle_rows rng) f → call_out c ≠ f) →
  fs w' = apply_calls (do_overwrite cfg) fs0
            (file_calls cfg fs0 (shuffle_rows rng) f) (fs w)
  ∧ calls w' = calls w ++ file_calls cfg fs0 (shuffle_rows rng) f.
Proof.
  intros Hplain. rewrite main_file_run. unfold file_calls.
  destruct (get_shard_prefix _ f) as [prefix|e]; [|done]. cbv zeta.
  destruct (scan_with_row_idx f _) as [w2 [df|e]] eqn:E; [|done].
  pose proof (scan_with_row_idx_ok _ _ _ _ E) as ->.
  apply scan_with_row_idx_frame in E as (Hfs & Hcalls & _). cbn in Hfs, Hcalls.
  intros Hrun Hf. rewrite <- (probe_ext (fs w2) fs0) by (by rewrite Hfs).
  revert Hrun. rewrite <- (collect_len_plain (globs w2)) by done.
  destruct (Polars.collect (globs w2) (fs w2) _) as [counted|e]; [|done].
  cbn [rbind].
  destruct (Polars.item counted) as [R|e]; [|done]. cbn [rbind].
  destruct (py_range 0 R (row_chunksize cfg)) as [starts|e]; [|done]. cbn [rbind].
  intros Hrun Hout. apply chunks_ok in Hrun as [Hfs' Hcalls'].
  - cbn in Hfs', Hcalls'. by rewrite Hfs', Hcalls', Hfs, Hcalls.
  - done.
  - cbn. by rewrite Hfs.
  - intros st Hst. apply Hout. apply list_elem_of_fmap. by exists st.
Qed.

Lemma files_ok (files : list Path) (w w' : World) :
  (∀ f, f ∈ inputs → Polars.has_glob f = false) →
  for_ files (main_file cfg rng) w = (w', Ok tt) →
  (∀ f, f ∈ files → f ∈ inputs) →
  (∀ f c, f ∈ files → c ∈ file_calls cfg fs0 (shuffle_rows rng) f →
          call_out c ∉ inputs) →
  inputs_kept fs0 inputs (fs w) →
  fs w' = apply_calls (do_overwrite cfg) fs0
            (files ≫= file_calls cfg fs0 (shuffle_rows rng)) (fs w)
  ∧ calls w' = calls w ++ (files ≫= file_calls cfg fs0 (shuffle_rows rng)).
Proof.
  intros Hplain. revert w.
  induction files as [|f files IH]; intros w Hrun Hin Hout Hkept.
  - injection Hrun as <-. by rewrite app_nil_r.
  - cbn [for_] in Hrun. unfold bind in Hrun.
    destruct (main_file cfg rng f w) as [w1 [[]|e]] eqn:E; [|done].
    assert (f ∈ inputs) as Hf by (apply Hin; by left).
    apply main_file_ok in E as [Hfs1 Hcalls1]; [|by apply Hplain|by apply Hkept|].
    2:{ intros c Hc Heq. apply (Hout f c); [by left | done | by rewrite Heq]. }
    destruct (IH w1 Hrun) as [Hfs' Hcalls'].
    + intros; apply Hin; by right.
    + intros g c ?. apply Hout. by right.
    + rewrite Hfs1. apply inputs_kept_apply_calls; [|done].
      intros c. apply Hout. by left.
    + rewrite bind_cons, apply_calls_app, Hfs', Hcalls', Hfs1, Hcalls1.
      by rewrite <- app_assoc.
Qed.

End normal_runs.

(** ** The order of the work is of no account *)

Lemma py_range_starts_nonneg (R C : Z) (starts : list Z) :
  0 ≤ R → py_range 0 R C = Ok starts → ∀ st, st ∈ starts → 0 ≤ st.
Proof.
  intros HR. unfold py_range. destruct (Z.eqb_spec C 0); [done|]. intros [= <-] st.
  intros (i & -> & [_ Hi]%elem_of_seq)%list_elem_of_fmap.
  destruct (Z_lt_le_dec 0 C); [nia|].
  unfold range_len in Hi. destruct (Z.ltb_spec 0 C); [lia|].
  destruct (Z.ltb_spec R 0); [lia|]. rewrite andb_false_r in Hi. simpl in Hi. lia.
Qed.

Lemma py_range_starts_NoDup (R C : Z) (starts : list Z) :
  py_range 0 R C = Ok starts → NoDup starts.
Proof.
  unfold py_range. destruct (Z.eqb_spec C 0); [done|]. intros [= <-].
  apply NoDup_fmap_2_strong; [|apply NoDup_seq]. intros i j _ _ H. nia.
Qed.

Lemma bind_perm_pointwise {A B} (g1 g2 : A → list B) (l1 l2 : list A) :
  l1 ≡ₚ l2 → (∀ x, g1 x ≡ₚ g2 x) → l1 ≫= g1 ≡ₚ l2 ≫= g2.
Proof.
  intros Hl Hg. rewrite Hl. clear l1 Hl.
  induction l2 as [|x l IH]; [done|]. by rewrite !bind_cons, Hg, IH.
Qed.

Section order_independence.

Context (cfg : Cfg) (tree : list Path) (fs0 : gmap Path DataFrame).
Hypothesis (Hok : tree_ok tree).

Let raw : Path := PurePath.parse_parts (raw_cohort_dir cfg).
Let out_root : Path := PurePath.parse_parts (MEDS_cohort_dir cfg) ++ ["sub_sharded"].

Lemma file_calls_perm (order : Path → list Z → list Z) (f : Path) :
  (∀ g l, order g l ≡ₚ l) →
  file_calls cfg fs0 order f ≡ₚ file_calls cfg fs0 in_order f.
Proof.
  intros Horder. unfold file_calls. repeat case_match; try done.
  unfold in_order. by rewrite Horder.
Qed.

(** A call for a file below the raw root: its chunk and its output. *)
Lemma elem_of_file_calls (rel : Path) (c : WrapCall) :
  valid_rel rel = true → c ∈ file_calls cfg fs0 in_order (raw ++ rel) →
  ∃ R st,
    probe fs0 (raw ++ rel) = Ok R ∧ 0 ≤ st
    ∧ c = chunk_call cfg (raw ++ rel)
            (out_dir_of cfg (PurePath.str (shard_parts rel))) R st
    ∧ call_out c
      = out_root ++ shard_parts rel
          ++ [chunk_name st (chunk_end st (row_chunksize cfg) R)].
Proof.
  intros Hv. unfold file_calls. fold raw. rewrite get_shard_prefix_rel by done.
  destruct (probe fs0 (raw ++ rel)) as [R|e] eqn:HR; [|by intros ?%elem_of_nil].
  destruct (py_range 0 R (row_chunksize cfg)) as [starts|e] eqn:Hstarts;
    [|by intros ?%elem_of_nil].
  intros (st & -> & Hst)%list_elem_of_fmap. exists R, st.
  split; [done|]. split.
  { eapply py_range_starts_nonneg; [|done..]. by eapply probe_nonneg. }
  split; [done|]. unfold chunk_call. cbn [call_out].
  rewrite joinpath_part by apply chunk_name_valid.
  rewrite out_dir_of_rel by done. unfold out_root. by rewrite <- !app_assoc.
Qed.

Lemma file_calls_in (f : Path) (c : WrapCall) :
  c ∈ file_calls cfg fs0 in_order f → call_in c = f.
Proof.
  unfold file_calls. repeat case_match; try by intros ?%elem_of_nil.
  by intros (st & -> & _)%list_elem_of_fmap.
Qed.

Lemma file_calls_NoDup (f : Path) : NoDup (file_calls cfg fs0 in_order f).
Proof.
  unfold file_calls. repeat case_match; try by constructor.
  apply NoDup_fmap_2_strong; [|by eapply py_range_starts_NoDup].
  intros st1 st2 _ _ Heq. by apply (f_equal call_start) in Heq.
Qed.

Lemma elem_of_all_calls (c : WrapCall) :
  c ∈ all_calls cfg tree fs0 →
  ∃ rel R st,
    rel ∈ tree ∧ valid_rel rel = true
    ∧ raw ++ rel ∈ accepted_files cfg tree
    ∧ probe fs0 (raw ++ rel) = Ok R ∧ 0 ≤ st
    ∧ c = chunk_call cfg (raw ++ rel)
            (out_dir_of cfg (PurePath.str (shard_parts rel))) R st
    ∧ call_out c
      = out_root ++ shard_parts rel
          ++ [chunk_name st (chunk_end st (row_chunksize cfg) R)].
Proof.
  intros (f & Hc & Hf)%list_elem_of_bind.
  destruct (accepted_files_rel cfg tree f Hok Hf) as (rel & Hrel & -> & Hv).
  destruct (elem_of_file_calls rel c Hv Hc) as (R & st & ? & ? & ? & ?).
  by exists rel, R, st.
Qed.

Lemma accepted_files_NoDup : NoDup (accepted_files cfg tree).
Proof. eapply NoDup_fmap_1, accepted_keys_NoDup. Qed.

(** No two calls of a run write to the same path. *)
Lemma all_calls_out_NoDup : NoDup (call_out <$> all_calls cfg tree fs0).
Proof.
  apply NoDup_fmap_2_strong.
  - intros c1 c2 Hc1 Hc2 Hout.
    destruct (elem_of_all_calls c1 Hc1)
      as (rel1 & R1 & st1 & _ & Hv1 & Ha1 & HR1 & Hst1 & -> & Hout1).
    destruct (elem_of_all_calls c2 Hc2)
      as (rel2 & R2 & st2 & _ & Hv2 & Ha2 & HR2 & Hst2 & -> & Hout2).
    rewrite Hout1, Hout2 in Hout. apply app_inv_head in Hout.
    apply app_inj_tail in Hout as [Hparts Hname].
    apply chunk_name_inj in Hname as <-; [|done..].
    assert (raw ++ rel1 = raw ++ rel2) as Heq.
    { eapply (NoDup_fmap_eq (shard_key raw)); [apply accepted_keys_NoDup | done..|].
      unfold shard_key. rewrite !drop_app_length. by rewrite Hparts. }
    apply app_inv_head in Heq as <-. rewrite HR1 in HR2. by injection HR2 as <-.
  - apply NoDup_bind; [|intros; apply file_calls_NoDup|apply accepted_files_NoDup].
    intros f1 f2 c _ _ <-%file_calls_in <-%file_calls_in. done.
Qed.

(** The calls of a run under a shuffle are those of [all_calls cfg tree fs0]. *)
Lemma shuffled_calls_perm (rng : Shuffle) :
  shuffle_ok rng →
  shuffle_files rng (accepted_files cfg tree) ≫= file_calls cfg fs0 (shuffle_rows rng)
  ≡ₚ all_calls cfg tree fs0.
Proof.
  intros [Hfiles Hrows]. apply bind_perm_pointwise; [apply Hfiles|].
  intros f. by apply file_calls_perm.
Qed.

(** A normal run of [main] leaves the file system that the calls of
    [all_calls cfg tree fs0] give, in whatever order. *)
(** The output of a call is no file that can be read by name. *)
Lemma all_calls_out_glob (c : WrapCall) :
  c ∈ all_calls cfg tree fs0 → Polars.has_glob (call_out c) = true.
Proof.
  intros Hc.
  destruct (elem_of_all_calls c Hc) as (rel & R & st & _ & _ & _ & _ & _ & _ & ->).
  rewrite !app_assoc. apply has_glob_chunk.
Qed.

(** A normal run of [main] on inputs that are read by name leaves the file
    system that the calls of [all_calls cfg tree fs0] give, in whatever
    order. *)
Lemma main_ok (rng : Shuffle) (w w' : World) :
  shuffle_ok rng → fs w = fs0 → plain_inputs cfg tree →
  main cfg tree rng w = (w', Ok tt) →
  fs w' = apply_calls (do_overwrite cfg) fs0 (all_calls cfg tree fs0) fs0
  ∧ calls w' ≡ₚ calls w ++ all_calls cfg tree fs0.
Proof.
  intros Hrng Hfs Hplain. rewrite main_run by done. intros Hrun.
  pose proof (shuffled_calls_perm rng Hrng) as Hperm.
  apply (files_ok cfg rng fs0 (accepted_files cfg tree)) in Hrun as [Hfs' Hcalls'].
  - cbn [fs log_all] in Hfs'. rewrite Hfs', Hfs. split.
    + apply apply_calls_perm; [done|]. rewrite Hperm. apply all_calls_out_NoDup.
    + rewrite Hcalls'. cbn [calls log_all]. by rewrite Hperm.
  - done.
  - intros f Hf. destruct Hrng as [Hfiles _]. by rewrite Hfiles in Hf.
  - intros f c Hf Hc Hin.
    assert (c ∈ all_calls cfg tree fs0) as Hall.
    { rewrite <- Hperm. apply list_elem_of_bind. by exists f. }
    apply all_calls_out_glob in Hall. by rewrite (Hplain _ Hin) in Hall.
  - intros g _. cbn. by rewrite Hfs.
Qed.

End order_independence.

(** C4 (amended). Let the paths of the accepted input files be free of the
    glob characters [*], [?] and [[], so that the readers open the files
    of these names. Two runs of [main] on the same files and configuration
    that both end normally, under any two shuffles of the file list and of
    the chunk starts of each file, leave the same file system, and so the
    same output files with the same content; they make the same calls of
    the wrapper, up to their order. *)
Theorem shuffles_give_same_output (cfg : Cfg) (tree : list Path)
    (rng1 rng2 : Shuffle) (w w1 w2 : World) :
  tree_ok tree → shuffle_ok rng1 → shuffle_ok rng2 →
  plain_inputs cfg tree →
  main cfg tree rng1 w = (w1, Ok tt) →
  main cfg tree rng2 w = (w2, Ok tt) →
  fs w1 = fs w2 ∧ calls w1 ≡ₚ calls w2.
Proof.
  intros Hok H1 H2 Hplain Hrun1 Hrun2.
  destruct (main_ok cfg tree (fs w) Hok rng1 w w1 H1 eq_refl Hplain Hrun1) as [-> ->].
  destruct (main_ok cfg tree (fs w) Hok rng2 w w2 H2 eq_refl Hplain Hrun2) as [-> ->].
  done.
Qed.

Lemma shuffles_give_same_output_witness :
  let cfg := Trial.cfg 2 in
  let tree := [["a.parquet"]; ["d"; "b.csv"]] in
  let w := Trial.world [(["/"; "raw"; "a.parquet"], Trial.table 5);
                        (["/"; "raw"; "d"; "b.csv"], Trial.table 3)] in
  let run1 := main cfg tree Trial.keep w in
  let run2 := main cfg tree Trial.flip w in
  (run1.2 = Ok tt ∧ run2.2 = Ok tt)
  ∧ fs run1.1 = fs run2.1 ∧ calls run1.1 ≡ₚ calls run2.1.
Proof.
  intros cfg tree w run1 run2.
  assert (tree_ok tree) as Hok.
  { intros rel Hrel. unfold tree in Hrel.
    repeat (apply elem_of_cons in Hrel as [->|Hrel]; [reflexivity|]).
    by apply elem_of_nil in Hrel. }
  assert (plain_inputs cfg tree) as Hplain.
  { intros f Hf. vm_compute in Hf.
    repeat (apply elem_of_cons in Hf as [->|Hf]; [reflexivity|]).
    by apply elem_of_nil in Hf. }
  assert (shuffle_ok Trial.keep) as Hkeep by (split; intros; apply Permutation_refl).
  assert (shuffle_ok Trial.flip) as Hflip by (split; intros; apply reverse_Permutation).
  assert (run1.2 = Ok tt) as H1 by (vm_compute; reflexivity).
  assert (run2.2 = Ok tt) as H2 by (vm_compute; reflexivity).
  split; [exact (conj H1 H2)|].
  apply (shuffles_give_same_output cfg tree Trial.keep Trial.flip w run1.1 run2.1
           Hok Hkeep Hflip Hplain).
  - rewrite <- H1. apply surjective_pairing.
  - rewrite <- H2. apply surjective_pairing.
Defined.

(** C4 as stated fails in two ways. An exception ends [main] at once, so
    with a file that cannot be read the files written before it depend on
    the order: with [a.parquet] first its chunk is written, with [b.csv.gz]
    first nothing is. And an input file whose name is a glob pattern is
    read as the files that the pattern matches at that moment: the file
    [sub_sharded/a/*.parquet] below the raw root [/d], which is the output
    root as well, is read together with the chunks of [a.parquet] when
    these are written first, and alone otherwise; both runs end normally,
    and the row counts that they find for it differ. *)
Lemma shuffles_give_same_output_counterexample :
  ¬ (∀ (cfg : Cfg) (tree : list Path) (rng1 rng2 : Shuffle) (w w1 w2 : World) r1 r2,
       tree_ok tree → shuffle_ok rng1 → shuffle_ok rng2 →
       plain_inputs cfg tree →
       main cfg tree rng1 w = (w1, r1) → main cfg tree rng2 w = (w2, r2) →
       fs w1 = fs w2)
  ∧ ¬ (∀ (cfg : Cfg) (tree : list Path) (rng1 rng2 : Shuffle) (w w1 w2 : World),
         tree_ok tree → shuffle_ok rng1 → shuffle_ok rng2 →
         main cfg tree rng1 w = (w1, Ok tt) → main cfg tree rng2 w = (w2, Ok tt) →
         fs w1 = fs w2).
Proof.
  assert (shuffle_ok Trial.keep) as Hkeep by (split; intros; apply Permutation_refl).
  assert (shuffle_ok Trial.flip) as Hflip by (split; intros; apply reverse_Permutation).
  split; intros H.
  - set (tree := [["a.parquet"]; ["b.csv.gz"]]).
    set (w := Trial.world [(["/"; "raw"; "a.parquet"], Trial.table 2);
                           (["/"; "raw"; "b.csv.gz"], Trial.table 2)]).
    assert (tree_ok tree) as Hok.
    { intros rel Hrel. unfold tree in Hrel.
      repeat (apply elem_of_cons in Hrel as [->|Hrel]; [reflexivity|]).
      by apply elem_of_nil in Hrel. }
    assert (plain_inputs (Trial.cfg 2) tree) as Hplain.
    { intros f Hf. vm_compute in Hf.
      repeat (apply elem_of_cons in Hf as [->|Hf]; [reflexivity|]).
      by apply elem_of_nil in Hf. }
    pose proof (H (Trial.cfg 2) tree Trial.keep Trial.flip w
                  (main (Trial.cfg 2) tree Trial.keep w).1
                  (main (Trial.cfg 2) tree Trial.flip w).1
                  (main (Trial.cfg 2) tree Trial.keep w).2
                  (main (Trial.cfg 2) tree Trial.flip w).2
                  Hok Hkeep Hflip Hplain
                  (surjective_pairing _) (surjective_pairing _)) as Heq.
    clear H Hok Hplain.
    apply (f_equal (λ m, m !! ["/"; "out"; "sub_sharded"; "a"; "[0-2).parquet"]))
      in Heq.
    vm_compute in Heq. discriminate Heq.
  - set (cfg := mkCfg "/d" "/d" 2 false).
    set (tree := [["a.parquet"]; ["sub_sharded"; "a"; "*.parquet"]]).
    set (w := Trial.world_with Trial.star_parquet
                [(["/"; "d"; "a.parquet"], Trial.table 3);
                 (["/"; "d"; "sub_sharded"; "a"; "*.parquet"], Trial.table 1)]).
    assert (tree_ok tree) as Hok.
    { intros rel Hrel. unfold tree in Hrel.
      repeat (apply elem_of_cons in Hrel as [->|Hrel]; [reflexivity|]).
      by apply elem_of_nil in Hrel. }
    assert (main cfg tree Trial.keep w = ((main cfg tree Trial.keep w).1, Ok tt)) as H1.
    { rewrite (surjective_pairing (main cfg tree Trial.keep w)) at 1.
      f_equal. }
    assert (main cfg tree Trial.flip w = ((main cfg tree Trial.flip w).1, Ok tt)) as H2.
    { rewrite (surjective_pairing (main cfg tree Trial.flip w)) at 1.
      f_equal. }
    pose proof (H cfg tree Trial.keep Trial.flip w _ _ Hok Hkeep Hflip H1 H2) as Heq.
    clear H Hok H1 H2.
    apply (f_equal (λ m, m !! ["/"; "d"; "sub_sharded"; "sub_sharded"; "a"; "*";
                               "[0-1).parquet"])) in Heq.
    vm_compute in Heq. discriminate Heq.
Qed.


(** ** Further properties of the reader dispatch and of the shard prefix *)

(** X1. [scan_with_row_idx] yields a frame just when the suffix of the
    path, letter case apart, is [.csv] or [.parquet]; the frame is then the
    lazy scan of the path with the row index column, and one [DEBUG] entry
    is logged. Otherwise it raises a [ValueError] and logs nothing. In no
    case is a warning logged: the warning for compressed CSV is never
    reached. *)
Theorem scan_with_row_idx_dispatch (fp : Path) (w : World) :
  (PyStr.lower (PurePath.suffix fp) ∈ [".csv"; ".parquet"] →
     ∃ msg, scan_with_row_idx fp w
            = (log_entry DEBUG msg w, Ok (LScan fp ROW_IDX_NAME)))
  ∧ (PyStr.lower (PurePath.suffix fp) ∉ [".csv"; ".parquet"] →
       scan_with_row_idx fp w
       = (w, Err (ValueError ("Unsupported file type: " +:+ PurePath.suffix fp))))
  ∧ (∀ w' r, scan_with_row_idx fp w = (w', r) →
       ∀ e, e ∈ logs w' → e ∈ logs w ∨ e.1 = DEBUG).
Proof.
  split; [|split].
  - intros Hs. rewrite scan_with_row_idx_run. cbv zeta.
    apply elem_of_cons in Hs as [Hs|Hs%list_elem_of_singleton]; rewrite Hs; cbn;
      by eexists.
  - intros Hs. rewrite scan_with_row_idx_run. cbv zeta.
    rewrite !not_elem_of_cons in Hs. destruct Hs as (H1 & H2 & _).
    apply eqb_false in H1, H2. by rewrite H1, H2.
  - intros w' r (_ & _ & _ & entries & -> & Hdbg)%scan_with_row_idx_frame e.
    cbn. intros [?|?%Hdbg]%elem_of_app; [by left | by right].
Qed.

Lemma scan_with_row_idx_dispatch_witness :
  let fp := ["/"; "raw"; "Events.CSV"] in
  ∃ msg, scan_with_row_idx fp (Trial.world [])
         = (log_entry DEBUG msg (Trial.world []), Ok (LScan fp ROW_IDX_NAME)).
Proof.
  intros fp.
  apply (proj1 (scan_with_row_idx_dispatch fp (Trial.world []))).
  apply elem_of_cons. left. reflexivity.
Defined.

Lemma take_eq_prefix {A} (base p : list A) :
  take (length base) p = base ↔ base `prefix_of` p.
Proof.
  split.
  - intros <-. apply prefix_take.
  - intros [k ->]. apply take_app_length.
Qed.

(** X2. [get_shard_prefix] returns a prefix just when the file path lies
    below the base path (and, for the empty base path, is relative); in
    every other case it raises a [ValueError]. *)
Theorem get_shard_prefix_below (base_path fp : Path) :
  (base_path `prefix_of` fp ∧ (base_path = [] → PurePath.is_absolute fp = false)
   → ∃ s, get_shard_prefix base_path fp = Ok s)
  ∧ (¬ (base_path `prefix_of` fp
        ∧ (base_path = [] → PurePath.is_absolute fp = false))
     → ∃ msg, get_shard_prefix base_path fp = Err (ValueError msg)).
Proof.
  unfold get_shard_prefix, PurePath.relative_to. split.
  - intros [Hpre Habs]. case_bool_decide as Hn.
    + apply nil_length_inv in Hn. rewrite (Habs Hn). by eexists.
    + rewrite bool_decide_false; [by eexists|].
      intros Hne. apply Hne. by apply take_eq_prefix.
  - intros Hnot. case_bool_decide as Hn.
    + apply nil_length_inv in Hn as ->.
      destruct (PurePath.is_absolute fp) eqn:Habs; [by eexists|].
      destruct Hnot. split; [by exists fp | done].
    + rewrite bool_decide_true; [by eexists|].
      intros Heq%take_eq_prefix. apply Hnot. split; [done|].
      intros ->. by destruct Hn.
Qed.

Lemma get_shard_prefix_below_witness :
  (∃ s, get_shard_prefix ["/"; "raw"] ["/"; "raw"; "d"; "e.csv"] = Ok s)
  ∧ (∃ msg, get_shard_prefix ["/"; "raw"] ["/"; "other"; "e.csv"]
            = Err (ValueError msg)).
Proof.
  split.
  - apply (proj1 (get_shard_prefix_below ["/"; "raw"] ["/"; "raw"; "d"; "e.csv"])).
    split; [by exists ["d"; "e.csv"] | discriminate].
  - apply (proj2 (get_shard_prefix_below ["/"; "raw"] ["/"; "other"; "e.csv"])).
    intros [[k Hk] _]. discriminate Hk.
Defined.

(** X3. The shard prefix of a file below the root stands for the path of
    its directory followed by its name up to the first dot, the name being
    left out when it starts with a dot: two files have the same shard
    prefix just when these paths are equal. For two files whose names do
    not start with a dot this is to say that they lie in the same directory
    and that their names agree up to the first dot. (A file [d/.x.csv] and
    a file [d.parquet] beside the directory [d] lie in different
    directories and have the same shard prefix.) *)
Theorem get_shard_prefix_eq_iff (raw rel1 rel2 : Path) :
  let stem1 := hd "" (PyStr.split "." (List.last rel1 "")) in
  let stem2 := hd "" (PyStr.split "." (List.last rel2 "")) in
  valid_rel rel1 = true → valid_rel rel2 = true →
  (get_shard_prefix raw (raw ++ rel1) = get_shard_prefix raw (raw ++ rel2)
   ↔ removelast rel1 ++ stem_parts (List.last rel1 "")
     = removelast rel2 ++ stem_parts (List.last rel2 ""))
  ∧ (stem1 ≠ "" → stem2 ≠ "" →
     (get_shard_prefix raw (raw ++ rel1) = get_shard_prefix raw (raw ++ rel2)
      ↔ removelast rel1 = removelast rel2 ∧ stem1 = stem2)).
Proof.
  intros stem1 stem2 H1 H2.
  assert (get_shard_prefix raw (raw ++ rel1) = get_shard_prefix raw (raw ++ rel2)
          ↔ removelast rel1 ++ stem_parts (List.last rel1 "")
            = removelast rel2 ++ stem_parts (List.last rel2 "")) as Hiff.
  { rewrite !get_shard_prefix_rel by done. split.
    - intros [= Hstr]. by apply str_valid_inj; [apply shard_parts_valid.. |].
    - unfold shard_parts. by intros ->. }
  split; [done|]. intros Hne1 Hne2. rewrite Hiff. unfold stem_parts.
  fold stem1 stem2. apply eqb_false in Hne1, Hne2. rewrite Hne1, Hne2.
  split; [by intros [? [= ?]]%app_inj_tail | by intros [-> ->]].
Qed.

Lemma get_shard_prefix_eq_iff_witness :
  let raw := ["/"; "raw"] in
  let rel1 := ["d"; "e.2020.csv"] in
  let rel2 := ["d"; "e.parquet"] in
  let stem1 := hd "" (PyStr.split "." (List.last rel1 "")) in
  let stem2 := hd "" (PyStr.split "." (List.last rel2 "")) in
  (valid_rel rel1 = true ∧ valid_rel rel2 = true ∧ stem1 ≠ "" ∧ stem2 ≠ "")
  ∧ (get_shard_prefix raw (raw ++ rel1) = get_shard_prefix raw (raw ++ rel2)
     ↔ removelast rel1 ++ stem_parts (List.last rel1 "")
       = removelast rel2 ++ stem_parts (List.last rel2 ""))
  ∧ (get_shard_prefix raw (raw ++ rel1) = get_shard_prefix raw (raw ++ rel2)
     ↔ removelast rel1 = removelast rel2 ∧ stem1 = stem2).
Proof.
  intros raw rel1 rel2 stem1 stem2.
  assert (stem1 ≠ "") as Hne1 by (vm_compute; discriminate).
  assert (stem2 ≠ "") as Hne2 by (vm_compute; discriminate).
  destruct (get_shard_prefix_eq_iff raw rel1 rel2 eq_refl eq_refl) as [H1 H2].
  split; [by repeat split|]. split; [exact H1 | exact (H2 Hne1 Hne2)].
Defined.



(** ** Further properties of the chunks *)

Lemma collect_filter_to_row_chunk (expand : Polars.Expand)
    (files : gmap Path DataFrame) (df : LazyFrame) (d t : DataFrame) (start end_ : Z) :
  Polars.with_row_index ROW_IDX_NAME d = Ok t →
  Polars.collect expand files df = Ok t →
  Polars.collect expand files (filter_to_row_chunk df start end_)
  = Ok (chunk_table d start end_).
Proof.
  intros Hidx Hdf. unfold Polars.with_row_index in Hidx. case_bool_decide; [done|].
  injection Hidx as <-. unfold filter_to_row_chunk. cbn [Polars.collect].
  rewrite Hdf. cbn. unfold chunk_table. do 2 f_equal.
  rewrite (imap_ext _ (λ i r, VInt (Z.of_nat (0 + i)) :: r)) by done.
  rewrite filter_numbered_rows. unfold row_slice. f_equal; [lia|]. f_equal. lia.
Qed.

(** The first [k] chunks, one after the other, are the rows before the end
    of the last of them. *)
Lemma row_slices_take (l : list (list Value)) (C : Z) (k : nat) :
  0 < C →
  concat ((λ st, row_slice st (chunk_end st C (Z.of_nat (length l))) l)
            <$> ((λ i : nat, 0 + Z.of_nat i * C) <$> seq 0 k))
  = take (Z.to_nat (Z.min (Z.of_nat k * C) (Z.of_nat (length l)))) l.
Proof.
  intros HC. induction k as [|k IH].
  - cbn. by rewrite Z.min_l, take_0 by lia.
  - rewrite seq_S, !fmap_app, concat_app, IH. cbn [fmap list_fmap concat].
    rewrite app_nil_r. unfold row_slice, chunk_end.
    destruct (Z_le_gt_dec (Z.of_nat k * C) (Z.of_nat (length l))) as [Hle|Hgt].
    + rewrite Z.min_l by done.
      replace (Z.to_nat (0 + Z.of_nat (0 + k) * C)) with (Z.to_nat (Z.of_nat k * C))
        by (f_equal; lia).
      rewrite take_take_drop. f_equal. lia.
    + rewrite (take_ge l) by lia. rewrite (drop_ge l) by lia.
      rewrite take_nil, app_nil_r. rewrite take_ge; [done | lia].
Qed.

(** X5. Let a lazy table evaluate to a table [d] decorated with the row
    index, and let the chunk size be positive. Filtering the table to each
    of the chunks that [main] computes for its row count gives the rows of
    those chunks, and these, put one after the other in the order of the
    chunk starts, are the rows of [d]: no row is lost, none comes twice,
    and the order is kept. *)
Theorem chunks_concat_to_table (expand : Polars.Expand)
    (files : gmap Path DataFrame) (df : LazyFrame) (d t : DataFrame) (C : Z) :
  Polars.with_row_index ROW_IDX_NAME d = Ok t →
  Polars.collect expand files df = Ok t →
  0 < C →
  ∃ starts,
    py_range 0 (Z.of_nat (length (rows d))) C = Ok starts
    ∧ (∀ st, st ∈ starts →
         Polars.collect expand files
           (filter_to_row_chunk df st (chunk_end st C (Z.of_nat (length (rows d)))))
         = Ok (chunk_table d st (chunk_end st C (Z.of_nat (length (rows d))))))
    ∧ concat ((λ st, rows (chunk_table d st
                             (chunk_end st C (Z.of_nat (length (rows d))))))
                <$> starts)
      = rows d.
Proof.
  intros Hidx Hdf HC. eexists. split; [apply py_range_starts; lia|].
  split; [intros; by eapply collect_filter_to_row_chunk|].
  cbn [rows chunk_table]. rewrite row_slices_take by done.
  apply take_ge.
  assert (¬ Z.of_nat (Z.to_nat (range_len 0 (Z.of_nat (length (rows d))) C)) * C
            < Z.of_nat (length (rows d))); [|lia].
  intros Hlt. apply range_len_below in Hlt; lia.
Qed.

Lemma chunks_concat_to_table_witness :
  let d := Trial.table 5 in
  let t := mkDataFrame [ROW_IDX_NAME; "v"]
             [[VInt 0; VInt 0]; [VInt 1; VInt 10]; [VInt 2; VInt 20];
              [VInt 3; VInt 30]; [VInt 4; VInt 40]] in
  ∃ starts,
    py_range 0 (Z.of_nat (length (rows d))) 2 = Ok starts
    ∧ (∀ st, st ∈ starts →
         Polars.collect Polars.no_match ∅
           (filter_to_row_chunk (LLazy t) st
              (chunk_end st 2 (Z.of_nat (length (rows d)))))
         = Ok (chunk_table d st (chunk_end st 2 (Z.of_nat (length (rows d))))))
    ∧ concat ((λ st, rows (chunk_table d st
                             (chunk_end st 2 (Z.of_nat (length (rows d))))))
                <$> starts)
      = rows d.
Proof.
  intros d t.
  apply (chunks_concat_to_table Polars.no_match ∅ (LLazy t) d t 2);
    [reflexivity..|lia].
Defined.

(** ** Further properties of discovery *)

Lemma accepted_of_first (key : Path → string) (seen : gset string)
    (l1 l2 : list Path) (f : Path) :
  key f ∉ seen → (∀ d, d ∈ l1 → key d ≠ key f) →
  f ∈ accepted_of key seen (l1 ++ f :: l2).
Proof.
  revert seen. induction l1 as [|x l1 IH]; intros seen Hf Hl1; simpl.
  - rewrite decide_False by done. by left.
  - assert (key x ≠ key f) as Hx by (apply Hl1; by left).
    assert (∀ d, d ∈ l1 → key d ≠ key f) as Hl1' by (intros; apply Hl1; by right).
    case_decide; [by apply IH|]. right. apply IH; [set_solver | done].
Qed.

(** X6. Discovery is first come, first served: it accepts a file just when
    no file that the globs yield before it (formats in the order parquet,
    csv, csv.gz, and within a format in the order of the directory walk)
    has the same shard prefix. *)
Theorem discovery_first_come (raw : Path) (tree : list Path) (w : World) :
  tree_ok tree →
  ∃ w' accepted,
    discover_input_files raw tree w = (w', Ok accepted)
    ∧ ∀ f, f ∈ accepted
           ↔ ∃ l1 l2, discovered raw tree = l1 ++ f :: l2
                      ∧ ∀ d, d ∈ l1 → get_shard_prefix raw d ≠ get_shard_prefix raw f.
Proof.
  intros Hok. eexists _, _. split; [by apply discover_input_files_run|].
  intros f. split.
  - intros Hf. destruct (accepted_first _ _ _ _ Hf) as (l1 & l2 & Hl & Hl1).
    exists l1, l2. split; [done|]. intros d Hd.
    rewrite (discovered_key raw tree d), (discovered_key raw tree f); try done.
    + intros [= Heq]. by apply (Hl1 d).
    + by eapply accepted_elem_of.
    + rewrite Hl. apply elem_of_app. by left.
  - intros (l1 & l2 & Hl & Hl1). rewrite Hl.
    apply accepted_of_first; [set_solver|]. intros d Hd Heq. apply (Hl1 d Hd).
    rewrite (discovered_key raw tree d), (discovered_key raw tree f); try done.
    + by rewrite Heq.
    + rewrite Hl. apply elem_of_app. right. by left.
    + rewrite Hl. apply elem_of_app. by left.
Qed.

Lemma discovery_first_come_witness :
  let raw := ["/"; "raw"] in
  let tree := [["data.old.csv"]; ["data.2020.csv"]] in
  ∃ w' accepted,
    discover_input_files raw tree (Trial.world []) = (w', Ok accepted)
    ∧ ∀ f, f ∈ accepted
           ↔ ∃ l1 l2, discovered raw tree = l1 ++ f :: l2
                      ∧ ∀ d, d ∈ l1 → get_shard_prefix raw d ≠ get_shard_prefix raw f.
Proof.
  intros raw tree. apply (discovery_first_come raw tree (Trial.world [])).
  intros rel Hrel. unfold tree in Hrel.
  repeat (apply elem_of_cons in Hrel as [->|Hrel]; [reflexivity|]).
  by apply elem_of_nil in Hrel.
Defined.

(** X7. A file whose name matches none of the three glob patterns is
    neither accepted nor skipped by discovery: it is left out without a
    warning. *)
Theorem discovery_ignores_other_files (raw : Path) (tree : list Path) (w : World)
    (rel : Path) :
  tree_ok tree → valid_rel rel = true →
  (∀ fmt, fmt ∈ FORMATS → PyStr.endswith (PurePath.name rel) ("." +:+ fmt) = false) →
  ∃ accepted skipped,
    discover_input_files raw tree w
    = (log_all ((λ f, (WARNING, skip_warning f)) <$> skipped) w, Ok accepted)
    ∧ (raw ++ rel ∉ accepted) ∧ (raw ++ rel ∉ skipped).
Proof.
  intros Hok Hv Hno. eexists _, _. split; [by apply discover_input_files_run|].
  assert (raw ++ rel ∉ discovered raw tree) as Hnot.
  { intros (fmt & rel' & Hfmt & Heq & _ & Hends)%elem_of_discovered.
    apply app_inv_head in Heq as <-. by rewrite Hno in Hends. }
  split; intros Hin; apply Hnot.
  - by eapply accepted_elem_of.
  - by eapply skipped_elem_of.
Qed.

Lemma discovery_ignores_other_files_witness :
  let raw := ["/"; "raw"] in
  let tree := [["notes.txt"]; ["a.parquet"]; ["b.CSV"]] in
  ∃ accepted skipped,
    discover_input_files raw tree (Trial.world [])
    = (log_all ((λ f, (WARNING, skip_warning f)) <$> skipped) (Trial.world []),
       Ok accepted)
    ∧ (raw ++ ["notes.txt"] ∉ accepted) ∧ (raw ++ ["notes.txt"] ∉ skipped).
Proof.
  intros raw tree.
  apply (discovery_ignores_other_files raw tree (Trial.world []) ["notes.txt"]).
  - intros rel Hrel. unfold tree in Hrel.
    repeat (apply elem_of_cons in Hrel as [->|Hrel]; [reflexivity|]).
    by apply elem_of_nil in Hrel.
  - reflexivity.
  - intros fmt Hfmt. unfold FORMATS in Hfmt.
    repeat (apply elem_of_cons in Hfmt as [->|Hfmt]; [reflexivity|]).
    by apply elem_of_nil in Hfmt.
Defined.

(** ** What a run of [main] touches *)

Lemma chunk_call_out (cfg : Cfg) (f out_dir : Path) (R st : Z) :
  call_out (chunk_call cfg f out_dir R st)
  = out_dir ++ [chunk_name st (chunk_end st (row_chunksize cfg) R)].
Proof. unfold chunk_call. cbn. by rewrite joinpath_part by apply chunk_name_valid. Qed.

(** One chunk writes at most its own output file and makes no directory. *)
Lemma main_chunk_frame (cfg : Cfg) (f out_dir : Path) (R st : Z) (w w' : World) r :
  main_chunk cfg f out_dir R st w = (w', r) →
  dirs w' = dirs w
  ∧ ∀ k, k ≠ call_out (chunk_call cfg f out_dir R st) → fs w' !! k = fs w !! k.
Proof.
  rewrite main_chunk_run. cbv zeta. rewrite rwlock_wrap_run.
  destruct (_ && _); [by intros [= <- _]|].
  destruct (scan_with_row_idx _ _) as [w1 [df|e]] eqn:E;
    apply scan_with_row_idx_frame in E as (Hfs & _ & Hdirs & _); cbn in Hfs, Hdirs.
  - destruct (Polars.collect _ _); intros [= <- _]; cbn; rewrite ?Hfs, ?Hdirs;
      (split; [done|]); intros k Hk; [by rewrite lookup_insert_ne | done].
  - intros [= <- _]. by rewrite Hfs, Hdirs.
Qed.

(** The work on one file makes the output directory of the file and its
    ancestors, and writes below that directory only. *)
Lemma main_file_frame (cfg : Cfg) (rng : Shuffle) (f : Path) (prefix : string)
    (w w' : World) r :
  get_shard_prefix (PurePath.parse_parts (raw_cohort_dir cfg)) f = Ok prefix →
  main_file cfg rng f w = (w', r) →
  dirs w' = dirs w ∪ list_to_set (ancestors (out_dir_of cfg prefix))
  ∧ ∀ k, ¬ out_dir_of cfg prefix `prefix_of` k → fs w' !! k = fs w !! k.
Proof.
  intros Hprefix. rewrite main_file_run, Hprefix. cbv zeta.
  set (out_dir := out_dir_of cfg prefix).
  set (D := dirs w ∪ list_to_set (ancestors out_dir)).
  destruct (scan_with_row_idx f _) as [w2 [df|e]] eqn:E;
    apply scan_with_row_idx_frame in E as (Hfs & _ & Hdirs & _); cbn in Hfs, Hdirs;
    [|intros [= <- _]; by rewrite Hfs, Hdirs].
  destruct (rbind _ _) as [[R starts]|e]; [|intros [= <- _]; by rewrite Hfs, Hdirs].
  apply for_invariant with
    (I := λ w1, dirs w1 = D
                ∧ ∀ k, ¬ out_dir `prefix_of` k → fs w1 !! k = fs w !! k).
  - intros st w1 w1' r1 _ [HD Hk] [Hd' Hfs']%main_chunk_frame.
    split; [by rewrite Hd'|]. intros k Hpre. rewrite Hfs'; [by apply Hk|].
    intros ->. apply Hpre. rewrite chunk_call_out. by eexists.
  - cbn. by rewrite Hfs, Hdirs.
Qed.



Lemma out_dir_of_nonempty (cfg : Cfg) (prefix : string) : out_dir_of cfg prefix ≠ [].
Proof.
  unfold out_dir_of, PurePath.joinpath at 1.
  rewrite (joinpath_part _ "sub_sharded") by done.
  destruct (PurePath.is_absolute _) eqn:E.
  - by destruct (PurePath.parse_parts prefix).
  - by destruct (PurePath.parse_parts (MEDS_cohort_dir cfg)).
Qed.

Lemma elem_of_ancestors_self (p : Path) : p ≠ [] → p ∈ ancestors p.
Proof.
  intros Hne. unfold ancestors. apply list_elem_of_fmap. exists (length p).
  split; [by rewrite take_ge|]. apply elem_of_seq. destruct p; [done | simpl; lia].
Qed.

(** X9. The work on a file makes its output directory before it reads the
    file: whatever comes of the work, also when the file is rejected or
    cannot be read, the directory [MEDS/sub_sharded/<shard prefix>] is
    there afterwards, and no directory that was there is gone. Making a
    directory does not fail in this model. *)
Theorem main_file_makes_out_dir (cfg : Cfg) (rng : Shuffle) (f : Path)
    (prefix : string) (w w' : World) r :
  get_shard_prefix (PurePath.parse_parts (raw_cohort_dir cfg)) f = Ok prefix →
  main_file cfg rng f w = (w', r) →
  PurePath.joinpath
    (PurePath.joinpath (PurePath.parse_parts (MEDS_cohort_dir cfg)) "sub_sharded")
    prefix ∈ dirs w'
  ∧ dirs w ⊆ dirs w'.
Proof.
  intros Hprefix [Hdirs _]%(main_file_frame _ _ _ prefix); [|done].
  fold (out_dir_of cfg prefix). rewrite Hdirs. split; [|set_solver].
  apply elem_of_union. right. apply elem_of_list_to_set.
  apply elem_of_ancestors_self, out_dir_of_nonempty.
Qed.

Lemma main_file_makes_out_dir_witness :
  let f := ["/"; "raw"; "d"; "b.csv.gz"] in
  let w := Trial.world [(f, Trial.table 3)] in
  let run := main_file (Trial.cfg 2) Trial.keep f w in
  run.2 = Err (ValueError "Unsupported file type: .gz")
  ∧ ["/"; "out"; "sub_sharded"; "d"; "b"] ∈ dirs run.1
  ∧ dirs w ⊆ dirs run.1.
Proof.
  intros f w run. split; [vm_compute; reflexivity|].
  apply (main_file_makes_out_dir (Trial.cfg 2) Trial.keep f "d/b" w run.1 run.2);
    [reflexivity | apply surjective_pairing].
Defined.

(** ** A compressed file stops the run *)

Lemma for_ok_each {A} (l : list A) (body : A → M unit) (w w' : World) :
  for_ l body w = (w', Ok tt) → ∀ x, x ∈ l → ∃ wa wb, body x wa = (wb, Ok tt).
Proof.
  revert w. induction l as [|y l IH]; intros w Hrun x; [by intros ?%elem_of_nil|].
  cbn [for_] in Hrun. unfold bind in Hrun.
  destruct (body y w) as [w1 [[]|e]] eqn:E; [|done].
  intros [->|Hx]%elem_of_cons; [by exists w, w1 | by apply (IH w1)].
Qed.

Lemma main_file_csv_gz (cfg : Cfg) (rng : Shuffle) (f : Path) (w w' : World) r :
  PyStr.endswith (PurePath.name f) ".csv.gz" = true →
  main_file cfg rng f w = (w', r) → ∃ e, r = Err e.
Proof.
  intros Hgz. rewrite main_file_run.
  destruct (get_shard_prefix _ f) as [prefix|e]; [|intros [= _ <-]; by eexists].
  cbv zeta. rewrite scan_with_row_idx_run. cbv zeta.
  rewrite (suffix_of_csv_gz f Hgz). cbn. intros [= _ <-]. by eexists.
Qed.

Lemma accepted_of_unique (key : Path → string) (l : list Path) (f : Path) :
  f ∈ l → (∀ d, d ∈ l → key d = key f → d = f) → f ∈ accepted_of key ∅ l.
Proof.
  intros Hf Huniq.
  destruct (accepted_covers key ∅ l f Hf) as [?|(f' & Hf' & Hkey)]; [set_solver|].
  rewrite <- (Huniq f'); [done | by eapply accepted_elem_of | done].
Qed.

(** X10. Let the listing hold a file whose name ends in [.csv.gz] and no
    other file with its shard prefix. Discovery accepts the file, the
    reader dispatch rejects it, and so no run of [main] ends normally:
    under every shuffle [main] raises. *)
Theorem main_raises_on_csv_gz (cfg : Cfg) (tree : list Path) (rng : Shuffle)
    (rel : Path) (w w' : World) r :
  tree_ok tree → shuffle_ok rng →
  rel ∈ tree → PyStr.endswith (PurePath.name rel) ".csv.gz" = true →
  (∀ rel', rel' ∈ tree →
     get_shard_prefix (PurePath.parse_parts (raw_cohort_dir cfg))
       (PurePath.parse_parts (raw_cohort_dir cfg) ++ rel')
     = get_shard_prefix (PurePath.parse_parts (raw_cohort_dir cfg))
         (PurePath.parse_parts (raw_cohort_dir cfg) ++ rel) →
     rel' = rel) →
  main cfg tree rng w = (w', r) → ∃ e, r = Err e.
Proof.
  intros Hok [Hfiles _] Hrel Hgz Huniq. rewrite main_run by done.
  set (raw := PurePath.parse_parts (raw_cohort_dir cfg)) in *.
  assert (raw ++ rel ∈ discovered raw tree) as Hdisc.
  { apply elem_of_discovered. exists "csv.gz", rel.
    split; [unfold FORMATS; set_solver | done]. }
  assert (raw ++ rel ∈ accepted_files cfg tree) as Hacc.
  { apply accepted_of_unique; [done|]. intros d Hd Hkey.
    pose proof Hd as (fmt & rel' & _ & -> & Hrel' & _)%elem_of_discovered.
    f_equal. apply Huniq; [done|].
    rewrite !get_shard_prefix_rel by by apply Hok.
    unfold shard_key in Hkey. rewrite !drop_app_length in Hkey. by rewrite Hkey. }
  destruct r as [[]|e]; [|by eexists]. intros Hrun.
  apply for_ok_each with (x := raw ++ rel) in Hrun as (wa & wb & Hfile).
  - apply main_file_csv_gz in Hfile as [e [=]].
    rewrite name_app by by apply Hok. done.
  - by rewrite Hfiles.
Qed.

Lemma main_raises_on_csv_gz_witness :
  let tree := [["a.parquet"]; ["d"; "b.csv.gz"]] in
  let w := Trial.world [(["/"; "raw"; "a.parquet"], Trial.table 3);
                        (["/"; "raw"; "d"; "b.csv.gz"], Trial.table 3)] in
  ∃ e, (main (Trial.cfg 2) tree Trial.flip w).2 = Err e.
Proof.
  intros tree w.
  apply (main_raises_on_csv_gz (Trial.cfg 2) tree Trial.flip ["d"; "b.csv.gz"] w
           (main (Trial.cfg 2) tree Trial.flip w).1).
  - intros rel Hrel. unfold tree in Hrel.
    repeat (apply elem_of_cons in Hrel as [->|Hrel]; [reflexivity|]).
    by apply elem_of_nil in Hrel.
  - split; intros; apply reverse_Permutation.
  - unfold tree. apply elem_of_cons. right. apply elem_of_cons. by left.
  - reflexivity.
  - intros rel' Hrel'. unfold tree in Hrel'.
    apply elem_of_cons in Hrel' as [->|Hrel'].
    { intros Heq. vm_compute in Heq. discriminate Heq. }
    apply elem_of_cons in Hrel' as [->|Hrel']; [done|].
    by apply elem_of_nil in Hrel'.
  - apply surjective_pairing.
Defined.

(** ** The files after a normal run *)

Lemma probe_inv (files : gmap Path DataFrame) (f : Path) (R : Z) :
  probe files f = Ok R →
  ∃ d, files !! f = Some d ∧ (ROW_IDX_NAME ∉ columns d)
       ∧ R = Z.of_nat (length (rows d)) ∧ Polars.has_glob f = false.
Proof.
  unfold probe. cbn [Polars.collect].
  destruct (Polars.read_table _ files f ROW_IDX_NAME) as [t|e] eqn:E; [|done].
  apply read_table_no_match in E as [Hplain E]. revert E.
  unfold Polars.read_literal.
  destruct (files !! f) as [d|]; [|done]. unfold Polars.with_row_index.
  case_bool_decide; [done|]. intros [= <-]. cbn. intros [= <-]. exists d.
  by rewrite length_imap.
Qed.

Lemma probe_holds (files : gmap Path DataFrame) (f : Path) (d : DataFrame) :
  Polars.has_glob f = false →
  files !! f = Some d → ROW_IDX_NAME ∉ columns d →
  probe files f = Ok (Z.of_nat (length (rows d))).
Proof.
  intros Hplain Hf Hcol. unfold probe. cbn [Polars.collect].
  rewrite read_table_plain by done. unfold Polars.read_literal.
  rewrite Hf. unfold Polars.with_row_index. rewrite bool_decide_eq_false_2 by done.
  cbn. by rewrite length_imap.
Qed.

Lemma call_table_chunk (fs0 : gmap Path DataFrame) (c : WrapCall) (d : DataFrame) :
  Polars.has_glob (call_in c) = false →
  fs0 !! call_in c = Some d → ROW_IDX_NAME ∉ columns d →
  call_table fs0 c = Ok (chunk_table d (call_start c) (call_end c)).
Proof.
  intros Hplain Hf Hcol. unfold call_table.
  apply collect_filter_to_row_chunk
    with (t := mkDataFrame (ROW_IDX_NAME :: columns d)
                 (imap (λ i r, VInt (Z.of_nat i) :: r) (rows d)));
    [|cbn [Polars.collect]; rewrite read_table_plain by done;
      unfold Polars.read_literal; rewrite Hf];
    unfold Polars.with_row_index; by rewrite bool_decide_eq_false_2.
Qed.

(** Among calls with pairwise different outputs, the output of a call is
    what that call alone makes of it. *)
Lemma lookup_apply_calls_in (ov : bool) (fs0 : gmap Path DataFrame)
    (l : list WrapCall) (m : gmap Path DataFrame) (c : WrapCall) :
  NoDup (call_out <$> l) → c ∈ l →
  apply_calls ov fs0 l m !! call_out c = apply_call ov fs0 c m !! call_out c.
Proof.
  revert m. induction l as [|c' l IH]; intros m Hnd Hc; [by apply elem_of_nil in Hc|].
  rewrite fmap_cons in Hnd. apply NoDup_cons in Hnd as [Hnotin Hnd].
  apply elem_of_cons in Hc as [->|Hc]; cbn [apply_calls].
  - apply lookup_apply_calls_ne. intros c Hc Heq. apply Hnotin. rewrite <- Heq.
    apply list_elem_of_fmap. by exists c.
  - assert (call_out c' ≠ call_out c) as Hne.
    { intros Heq. apply Hnotin. rewrite Heq. apply list_elem_of_fmap. by exists c. }
    rewrite IH by done. rewrite <- apply_call_comm by done.
    by apply lookup_apply_call_ne.
Qed.

(** A file read by name that [main_file] works through normally has a
    supported suffix and a table that can be numbered, and the chunk size
    is not zero. *)
Lemma main_file_ok_inv (cfg : Cfg) (rng : Shuffle) (f : Path) (w w' : World) :
  Polars.has_glob f = false →
  main_file cfg rng f w = (w', Ok tt) →
  ∃ prefix R starts,
    get_shard_prefix (PurePath.parse_parts (raw_cohort_dir cfg)) f = Ok prefix
    ∧ PyStr.lower (PurePath.suffix f) ∈ [".csv"; ".parquet"]
    ∧ probe (fs w) f = Ok R
    ∧ py_range 0 R (row_chunksize cfg) = Ok starts.
Proof.
  intros Hplain. rewrite main_file_run.
  destruct (get_shard_prefix _ f) as [prefix|e]; [|done]. cbv zeta.
  destruct (scan_with_row_idx f _) as [w2 [df|e]] eqn:E; [|done].
  pose proof (scan_with_row_idx_ok _ _ _ _ E) as ->.
  assert (PyStr.lower (PurePath.suffix f) ∈ [".csv"; ".parquet"]) as Hsfx.
  { revert E. rewrite scan_with_row_idx_run. cbv zeta.
    destruct (String.eqb _ ".csv") eqn:E1; [apply eqb_true in E1; rewrite E1; by left|].
    destruct (String.eqb _ ".parquet") eqn:E2; [|done].
    apply eqb_true in E2. rewrite E2. intros _. right. by left. }
  apply scan_with_row_idx_frame in E as (Hfs & _). cbn in Hfs.
  rewrite <- (probe_ext (fs w2) (fs w)) by (by rewrite Hfs).
  rewrite <- (collect_len_plain (globs w2)) by done.
  destruct (Polars.collect (globs w2) (fs w2) _) as [counted|e]; [|done].
  cbn [rbind].
  destruct (Polars.item counted) as [R|e]; [|done]. cbn [rbind].
  destruct (py_range 0 R (row_chunksize cfg)) as [starts|e] eqn:Hpy; [|done].
  intros _. by exists prefix, R, starts.
Qed.

Lemma files_ok_inv (cfg : Cfg) (rng : Shuffle) (fs0 : gmap Path DataFrame)
    (inputs files : list Path) (w w' : World) :
  (∀ f, f ∈ inputs → Polars.has_glob f = false) →
  for_ files (main_file cfg rng) w = (w', Ok tt) →
  (∀ f, f ∈ files → f ∈ inputs) →
  (∀ f c, f ∈ files → c ∈ file_calls cfg fs0 (shuffle_rows rng) f →
          call_out c ∉ inputs) →
  inputs_kept fs0 inputs (fs w) →
  ∀ f, f ∈ files →
    ∃ prefix R starts,
      get_shard_prefix (PurePath.parse_parts (raw_cohort_dir cfg)) f = Ok prefix
      ∧ PyStr.lower (PurePath.suffix f) ∈ [".csv"; ".parquet"]
      ∧ probe fs0 f = Ok R
      ∧ py_range 0 R (row_chunksize cfg) = Ok starts.
Proof.
  intros Hplain. revert w.
  induction files as [|g files IH]; intros w Hrun Hin Hout Hkept f Hf;
    [by apply elem_of_nil in Hf|].
  cbn [for_] in Hrun. unfold bind in Hrun.
  destruct (main_file cfg rng g w) as [w1 [[]|e]] eqn:E; [|done].
  assert (g ∈ inputs) as Hg by (apply Hin; by left).
  apply elem_of_cons in Hf as [->|Hf].
  - apply main_file_ok_inv in E as (prefix & R & starts & ? & ? & Hprobe & ?);
      [|by apply Hplain].
    exists prefix, R, starts. rewrite <- (probe_ext (fs w) fs0) by by apply Hkept.
    done.
  - apply (main_file_ok cfg rng fs0) in E as [Hfs1 _];
      [|by apply Hplain|by apply Hkept|].
    2:{ intros c Hc Heq. apply (Hout g c); [by left | done | by rewrite Heq]. }
    apply (IH w1 Hrun); [| |rewrite Hfs1; apply inputs_kept_apply_calls|done].
    + intros; apply Hin; by right.
    + intros h c ?. apply Hout. by right.
    + intros c. apply Hout. by left.
    + done.
Qed.

(** The side conditions of the loop over the files. *)
Lemma main_loop_inputs (cfg : Cfg) (tree : list Path) (fs0 : gmap Path DataFrame)
    (rng : Shuffle) :
  let files := shuffle_files rng (accepted_files cfg tree) in
  let inputs := accepted_files cfg tree in
  tree_ok tree → shuffle_ok rng → plain_inputs cfg tree →
  (∀ f, f ∈ files → f ∈ inputs)
  ∧ (∀ f c, f ∈ files → c ∈ file_calls cfg fs0 (shuffle_rows rng) f →
            call_out c ∉ inputs).
Proof.
  intros files inputs Hok Hrng Hplain.
  pose proof (shuffled_calls_perm cfg tree fs0 rng Hrng) as Hperm.
  split.
  - intros f Hf. destruct Hrng as [Hfiles _]. unfold files in Hf.
    by rewrite Hfiles in Hf.
  - intros f c Hf Hc Hin.
    assert (c ∈ all_calls cfg tree fs0) as Hall.
    { rewrite <- Hperm. apply list_elem_of_bind. by exists f. }
    apply (all_calls_out_glob cfg tree fs0 Hok) in Hall.
    by rewrite (Hplain _ Hin) in Hall.
Qed.

(** In a normal run every accepted file could be read. *)
Lemma main_ok_inputs (cfg : Cfg) (tree : list Path) (rng : Shuffle) (w w' : World)
    (f : Path) :
  tree_ok tree → shuffle_ok rng → plain_inputs cfg tree →
  main cfg tree rng w = (w', Ok tt) →
  f ∈ accepted_files cfg tree →
  ∃ prefix R starts,
    get_shard_prefix (PurePath.parse_parts (raw_cohort_dir cfg)) f = Ok prefix
    ∧ PyStr.lower (PurePath.suffix f) ∈ [".csv"; ".parquet"]
    ∧ probe (fs w) f = Ok R
    ∧ py_range 0 R (row_chunksize cfg) = Ok starts.
Proof.
  intros Hok Hrng Hplain Hrun Hf. rewrite main_run in Hrun by done.
  destruct (main_loop_inputs cfg tree (fs w) rng Hok Hrng Hplain) as [Hin Hout].
  eapply files_ok_inv; [exact Hplain | exact Hrun | exact Hin | exact Hout
                        | by intros g _ |].
  destruct Hrng as [Hfiles _]. by rewrite Hfiles.
Qed.

(** The chunk of a readable accepted file is among the calls of the run. *)
Lemma chunk_in_all_calls (cfg : Cfg) (tree : list Path) (fs0 : gmap Path DataFrame)
    (rel : Path) (R k : Z) :
  let raw := PurePath.parse_parts (raw_cohort_dir cfg) in
  valid_rel rel = true → raw ++ rel ∈ accepted_files cfg tree →
  probe fs0 (raw ++ rel) = Ok R →
  0 < row_chunksize cfg → 0 ≤ k → k * row_chunksize cfg < R →
  chunk_call cfg (raw ++ rel) (out_dir_of cfg (PurePath.str (shard_parts rel))) R
    (k * row_chunksize cfg)
  ∈ all_calls cfg tree fs0.
Proof.
  intros raw Hv Hacc Hprobe HC Hk Hlt.
  apply list_elem_of_bind. exists (raw ++ rel). split; [|done].
  unfold file_calls. fold raw. rewrite get_shard_prefix_rel, Hprobe by done.
  pose proof (probe_nonneg _ _ _ Hprobe) as HR.
  rewrite py_range_starts by done. unfold in_order.
  apply list_elem_of_fmap. exists (k * row_chunksize cfg). split; [done|].
  apply elem_of_starts; [done..|]. by exists k.
Qed.

Lemma file_calls_starts (cfg : Cfg) (fs0 : gmap Path DataFrame) (f : Path)
    (prefix : string) (R : Z) (starts : list Z) :
  get_shard_prefix (PurePath.parse_parts (raw_cohort_dir cfg)) f = Ok prefix →
  probe fs0 f = Ok R → py_range 0 R (row_chunksize cfg) = Ok starts →
  file_calls cfg fs0 in_order f = chunk_call cfg f (out_dir_of cfg prefix) R <$> starts.
Proof. intros Hp Hr Hs. unfold file_calls. by rewrite Hp, Hr, Hs. Qed.

Lemma chunk_call_rel (cfg : Cfg) (rel : Path) (R st : Z) :
  valid_rel rel = true →
  chunk_call cfg (PurePath.parse_parts (raw_cohort_dir cfg) ++ rel)
    (out_dir_of cfg (PurePath.str (shard_parts rel))) R st
  = mkWrapCall (PurePath.parse_parts (raw_cohort_dir cfg) ++ rel)
      (sub_sharded_root cfg ++ shard_parts rel
         ++ [chunk_name st (chunk_end st (row_chunksize cfg) R)])
      st (chunk_end st (row_chunksize cfg) R).
Proof.
  intros Hv. unfold chunk_call. cbv zeta. f_equal.
  rewrite joinpath_part by apply chunk_name_valid. rewrite out_dir_of_rel by done.
  unfold sub_sharded_root. by rewrite <- !app_assoc.
Qed.

(** The calls of a normal run with a positive chunk size: one for every
    chunk of every accepted file. *)
Lemma elem_of_calls_ok (cfg : Cfg) (tree : list Path) (rng : Shuffle) (w w' : World)
    (c : WrapCall) :
  tree_ok tree → shuffle_ok rng → plain_inputs cfg tree →
  0 < row_chunksize cfg → calls w = [] →
  main cfg tree rng w = (w', Ok tt) →
  c ∈ calls w' ↔
    ∃ rel d k,
      PurePath.parse_parts (raw_cohort_dir cfg) ++ rel ∈ accepted_files cfg tree
      ∧ fs w !! (PurePath.parse_parts (raw_cohort_dir cfg) ++ rel) = Some d
      ∧ 0 ≤ k ∧ k * row_chunksize cfg < Z.of_nat (length (rows d))
      ∧ c = mkWrapCall (PurePath.parse_parts (raw_cohort_dir cfg) ++ rel)
              (sub_sharded_root cfg ++ shard_parts rel
                 ++ [chunk_name (k * row_chunksize cfg)
                       (chunk_end (k * row_chunksize cfg) (row_chunksize cfg)
                          (Z.of_nat (length (rows d))))])
              (k * row_chunksize cfg)
              (chunk_end (k * row_chunksize cfg) (row_chunksize cfg)
                 (Z.of_nat (length (rows d)))).
Proof.
  intros Hok Hrng Hplain HC Hcalls Hrun.
  destruct (main_ok cfg tree (fs w) Hok rng w w' Hrng eq_refl Hplain Hrun) as [_ Hperm].
  rewrite Hcalls, app_nil_l in Hperm. rewrite Hperm. split.
  - intros (f & Hc & Hf)%list_elem_of_bind.
    destruct (accepted_files_rel cfg tree f Hok Hf) as (rel & Hrel & -> & Hv).
    destruct (main_ok_inputs cfg tree rng w w' _ Hok Hrng Hplain Hrun Hf)
      as (prefix & R & starts & Hprefix & _ & Hprobe & Hstarts).
    rewrite (file_calls_starts cfg (fs w) _ prefix R starts) in Hc by done.
    apply list_elem_of_fmap in Hc as (st & -> & Hst).
    rewrite get_shard_prefix_rel in Hprefix by done. injection Hprefix as <-.
    pose proof (probe_nonneg _ _ _ Hprobe) as HR.
    rewrite py_range_starts in Hstarts by done. injection Hstarts as <-.
    apply elem_of_starts in Hst as (k & Hk & -> & Hlt); [|done..].
    apply probe_inv in Hprobe as (d & Hd & _ & -> & _).
    exists rel, d, k. repeat split; try done. by apply chunk_call_rel.
  - intros (rel & d & k & Hacc & Hd & Hk & Hlt & ->).
    destruct (accepted_files_rel cfg tree _ Hok Hacc) as (rel' & Hrel' & Heq & Hv).
    apply app_inv_head in Heq. subst rel'.
    destruct (main_ok_inputs cfg tree rng w w' _ Hok Hrng Hplain Hrun Hacc)
      as (_ & R' & _ & _ & _ & Hprobe & _).
    pose proof Hprobe as (d' & Hd' & _ & -> & _)%probe_inv.
    pose proof (eq_trans (eq_sym Hd) Hd') as [= <-].
    rewrite <- chunk_call_rel by done. by apply chunk_in_all_calls.
Qed.

(** X11. After a normal run of [main] in which no accepted input path
    holds a glob character, chunk [k] of an accepted file holding the
    table [d] is at [MEDS/sub_sharded/<shard prefix>/[st-end).parquet] with
    [st = k * C] and [end = min(st + C, R)]: the file holds the rows
    [st, end) of [d] under the columns of [d], the row-index column is not
    among them, and a file that was there before is kept when overwriting
    is off. The wrapper is the one modelled from the specification. *)
Theorem main_output_tables (cfg : Cfg) (tree : list Path) (rng : Shuffle)
    (w w' : World) (rel : Path) (d : DataFrame) (k : Z) :
  let raw := PurePath.parse_parts (raw_cohort_dir cfg) in
  let C := row_chunksize cfg in
  let R := Z.of_nat (length (rows d)) in
  let out := sub_sharded_root cfg ++ shard_parts rel
               ++ [chunk_name (k * C) (chunk_end (k * C) C R)] in
  tree_ok tree → shuffle_ok rng → plain_inputs cfg tree →
  main cfg tree rng w = (w', Ok tt) →
  raw ++ rel ∈ accepted_files cfg tree →
  fs w !! (raw ++ rel) = Some d →
  0 < C → 0 ≤ k → k * C < R →
  (ROW_IDX_NAME ∉ columns d)
  ∧ fs w' !! out
    = if bool_decide (is_Some (fs w !! out)) && negb (do_overwrite cfg)
      then fs w !! out
      else Some (chunk_table d (k * C) (chunk_end (k * C) C R)).
Proof.
  intros raw C R out Hok Hrng Hplain Hrun Hacc Hd HC Hk Hlt.
  destruct (main_ok_inputs cfg tree rng w w' (raw ++ rel) Hok Hrng Hplain Hrun Hacc)
    as (_ & R' & _ & _ & _ & Hprobe & _).
  pose proof Hprobe as (d' & Hd' & Hcol & -> & _)%probe_inv.
  pose proof (eq_trans (eq_sym Hd) Hd') as [= <-]. split; [done|].
  assert (valid_rel rel = true) as Hv.
  { destruct (accepted_files_rel cfg tree _ Hok Hacc) as (rel' & Hrel' & Heq & Hv).
    apply app_inv_head in Heq. by subst rel'. }
  pose proof (chunk_in_all_calls cfg tree (fs w) rel R k Hv Hacc Hprobe HC Hk Hlt)
    as Hc.
  set (c := chunk_call cfg _ _ R (k * row_chunksize cfg)) in Hc.
  assert (call_out c = out) as Hout.
  { unfold c. rewrite chunk_call_out, out_dir_of_rel by done.
    unfold out, sub_sharded_root. by rewrite <- !app_assoc. }
  assert (Polars.has_glob (call_in c) = false) as Hin by by apply Hplain.
  destruct (main_ok cfg tree (fs w) Hok rng w w' Hrng eq_refl Hplain Hrun) as [-> _].
  rewrite <- Hout.
  rewrite lookup_apply_calls_in by (by apply all_calls_out_NoDup || done).
  unfold apply_call. destruct (_ && _); [done|].
  rewrite (call_table_chunk (fs w) c d) by done.
  by rewrite lookup_insert_eq.
Qed.

Lemma main_output_tables_witness :
  let tree := [["d"; "a.parquet"]] in
  let d := Trial.table 5 in
  let w := Trial.world [(["/"; "raw"; "d"; "a.parquet"], d)] in
  let run := main (Trial.cfg 2) tree Trial.flip w in
  (ROW_IDX_NAME ∉ columns d)
  ∧ fs run.1 !! ["/"; "out"; "sub_sharded"; "d"; "a"; "[4-5).parquet"]
    = Some (chunk_table d 4 5).
Proof.
  intros tree d w run.
  assert (tree_ok tree) as Hok.
  { intros rel Hrel. unfold tree in Hrel.
    apply elem_of_cons in Hrel as [->|Hrel]; [reflexivity|].
    by apply elem_of_nil in Hrel. }
  assert (shuffle_ok Trial.flip) as Hrng by (split; intros; apply reverse_Permutation).
  assert (plain_inputs (Trial.cfg 2) tree) as Hplain.
  { intros f Hf. vm_compute in Hf.
    repeat (apply elem_of_cons in Hf as [->|Hf]; [reflexivity|]).
    by apply elem_of_nil in Hf. }
  assert (PurePath.parse_parts (raw_cohort_dir (Trial.cfg 2)) ++ ["d"; "a.parquet"]
          ∈ accepted_files (Trial.cfg 2) tree) as Hacc.
  { vm_compute. left. }
  assert (fs w !! (PurePath.parse_parts (raw_cohort_dir (Trial.cfg 2))
                   ++ ["d"; "a.parquet"]) = Some d) as Hd.
  { vm_compute. reflexivity. }
  assert (run = (run.1, Ok tt)) as Hrun'.
  { assert (run.2 = Ok tt) as Hrun by (vm_compute; reflexivity).
    rewrite <- Hrun. apply surjective_pairing. }
  pose proof (main_output_tables (Trial.cfg 2) tree Trial.flip w run.1
                ["d"; "a.parquet"] d 2 Hok Hrng Hplain Hrun' Hacc Hd
                ltac:(reflexivity) ltac:(lia) ltac:(reflexivity)) as [H1 H2].
  split; [exact H1|].
  clear - H2.
  vm_compute in H2. vm_compute. exact H2.
Defined.

(** ** The output path of a work item *)




(** ** The work items of a run *)

(** X14. In a normal run of [main] with a positive chunk size in which no
    accepted input path holds a glob character, the wrapper is invoked once
    for every chunk of every accepted file and for nothing else: the invocations
    are those with input [raw/rel], rows [k * C, min(k * C + C, R)) for
    [0 <= k * C < R], and output
    [MEDS/sub_sharded/<shard prefix>/[st-end).parquet], and no two of them
    have the same output. *)
Theorem main_calls_once (cfg : Cfg) (tree : list Path) (rng : Shuffle) (w w' : World) :
  let raw := PurePath.parse_parts (raw_cohort_dir cfg) in
  let C := row_chunksize cfg in
  tree_ok tree → shuffle_ok rng → plain_inputs cfg tree →
  0 < C →
  main cfg tree rng w = (w', Ok tt) →
  calls w = [] →
  NoDup (call_out <$> calls w')
  ∧ ∀ c, c ∈ calls w' ↔
      ∃ rel d k,
        let R := Z.of_nat (length (rows d)) in
        raw ++ rel ∈ accepted_files cfg tree
        ∧ fs w !! (raw ++ rel) = Some d
        ∧ 0 ≤ k ∧ k * C < R
        ∧ c = mkWrapCall (raw ++ rel)
                (sub_sharded_root cfg ++ shard_parts rel
                   ++ [chunk_name (k * C) (chunk_end (k * C) C R)])
                (k * C) (chunk_end (k * C) C R).
Proof.
  intros raw C Hok Hrng Hplain HC Hrun Hcalls. subst raw C. split.
  - destruct (main_ok cfg tree (fs w) Hok rng w w' Hrng eq_refl Hplain Hrun)
      as [_ Hperm].
    rewrite Hcalls, app_nil_l in Hperm. rewrite Hperm. by apply all_calls_out_NoDup.
  - intros c. cbv zeta. by apply elem_of_calls_ok with (rng := rng).
Qed.

Lemma main_calls_once_witness :
  let cfg := Trial.cfg 2 in
  let raw := PurePath.parse_parts (raw_cohort_dir cfg) in
  let C := row_chunksize cfg in
  let tree := [["d"; "a.parquet"]; ["d"; "a.csv"]] in
  let w := Trial.world [(["/"; "raw"; "d"; "a.parquet"], Trial.table 3);
                        (["/"; "raw"; "d"; "a.csv"], Trial.table 7)] in
  let run := main cfg tree Trial.flip w in
  NoDup (call_out <$> calls run.1)
  ∧ ∀ c, c ∈ calls run.1 ↔
      ∃ rel d k,
        let R := Z.of_nat (length (rows d)) in
        raw ++ rel ∈ accepted_files cfg tree
        ∧ fs w !! (raw ++ rel) = Some d
        ∧ 0 ≤ k ∧ k * C < R
        ∧ c = mkWrapCall (raw ++ rel)
                (sub_sharded_root cfg ++ shard_parts rel
                   ++ [chunk_name (k * C) (chunk_end (k * C) C R)])
                (k * C) (chunk_end (k * C) C R).
Proof.
  intros cfg raw C tree w run.
  assert (tree_ok tree) as Hok.
  { intros rel Hrel. unfold tree in Hrel.
    repeat (apply elem_of_cons in Hrel as [->|Hrel]; [reflexivity|]).
    by apply elem_of_nil in Hrel. }
  assert (shuffle_ok Trial.flip) as Hrng by (split; intros; apply reverse_Permutation).
  assert (plain_inputs cfg tree) as Hplain.
  { intros g Hg. vm_compute in Hg.
    repeat (apply elem_of_cons in Hg as [->|Hg]; [reflexivity|]).
    by apply elem_of_nil in Hg. }
  assert (run = (run.1, Ok tt)) as Hrun.
  { assert (run.2 = Ok tt) as Hrun by (vm_compute; reflexivity).
    rewrite <- Hrun. apply surjective_pairing. }
  exact (main_calls_once cfg tree Trial.flip w run.1 Hok Hrng Hplain eq_refl Hrun eq_refl).
Defined.

(** ** The number and the sizes of the chunks *)

Lemma range_len_ceil (R C : Z) : 0 ≤ R → 0 < C → range_len 0 R C = (R + C - 1) `div` C.
Proof.
  intros HR HC. unfold range_len.
  destruct (Z.ltb_spec 0 C) as [_|?]; [|lia].
  destruct (Z.ltb_spec 0 R) as [HR'|HR']; cbn [andb].
  - replace (R + C - 1) with (R - 0 - 1 + 1 * C) by lia.
    rewrite Z.div_add by lia. lia.
  - destruct (Z.ltb_spec C 0) as [?|_]; [lia|]. cbn [andb].
    replace R with 0 by lia. symmetry. apply Z.div_small. lia.
Qed.

Lemma length_row_slice (st e : Z) (l : list (list Value)) :
  0 ≤ st → st ≤ e → e ≤ Z.of_nat (length l) →
  length (row_slice st e l) = Z.to_nat (e - st).
Proof.
  intros Hst He Hl. unfold row_slice. rewrite length_take, length_drop. lia.
Qed.

(** X15. A table of [R] rows is cut with a positive chunk size [C] into
    the least number of chunks that is not less than [R / C]; every chunk
    but the last holds exactly [C] rows, and the last holds the rows that
    are left. *)
Theorem chunk_count_and_sizes (d : DataFrame) (C : Z) :
  let R := Z.of_nat (length (rows d)) in
  0 < C →
  ∃ starts,
    py_range 0 R C = Ok starts
    ∧ Z.of_nat (length starts) = (R + C - 1) `div` C
    ∧ ∀ (i : nat) st, starts !! i = Some st →
        length (rows (chunk_table d st (chunk_end st C R)))
        = if decide (S i < length starts)%nat then Z.to_nat C else Z.to_nat (R - st).
Proof.
  intros R HC. assert (0 ≤ R) as HR by (unfold R; lia).
  eexists. split; [by apply py_range_starts|].
  assert (0 ≤ range_len 0 R C) as Hn by (rewrite range_len_ceil by done;
    apply Z.div_pos; lia).
  rewrite length_fmap, length_seq. split; [rewrite <- range_len_ceil by done; lia|].
  intros i st Hi. rewrite list_lookup_fmap in Hi.
  destruct (seq 0 _ !! i) as [j|] eqn:Hj; [|done]. injection Hi as <-.
  apply lookup_seq in Hj as [-> Hlt]. cbn [Nat.add].
  pose proof (range_len_below R C HC (Z.of_nat i) ltac:(lia)) as Hi.
  pose proof (range_len_below R C HC (Z.of_nat (S i)) ltac:(lia)) as HSi.
  cbn [chunk_table rows]. unfold chunk_end.
  destruct (decide (S i < Z.to_nat (range_len 0 R C))%nat) as [Hlast|Hlast].
  - rewrite length_row_slice; fold R; lia.
  - rewrite length_row_slice; fold R; lia.
Qed.

Lemma chunk_count_and_sizes_witness :
  ∃ starts,
    py_range 0 (Z.of_nat (length (rows (Trial.table 7)))) 3 = Ok starts
    ∧ Z.of_nat (length starts)
      = (Z.of_nat (length (rows (Trial.table 7))) + 3 - 1) `div` 3
    ∧ ∀ (i : nat) st, starts !! i = Some st →
        length (rows (chunk_table (Trial.table 7) st
                        (chunk_end st 3 (Z.of_nat (length (rows (Trial.table 7)))))))
        = if decide (S i < length starts)%nat then Z.to_nat 3
          else Z.to_nat (Z.of_nat (length (rows (Trial.table 7))) - st).
Proof. apply (chunk_count_and_sizes (Trial.table 7) 3). reflexivity. Defined.

(** ** The log of a run *)

Lemma filter_warning_nil (entries : list (Level * string)) :
  (∀ e, e ∈ entries → e.1 ≠ WARNING) →
  filter (λ e : Level * string, e.1 = WARNING) entries = [].
Proof.
  induction entries as [|e l IH]; intros Hl; [done|].
  rewrite filter_cons_False by (apply Hl; by left).
  apply IH. intros; apply Hl; by right.
Qed.

Lemma filter_warning_all (l : list Path) :
  filter (λ e : Level * string, e.1 = WARNING) ((λ f, (WARNING, skip_warning f)) <$> l)
  = (λ f, (WARNING, skip_warning f)) <$> l.
Proof.
  induction l as [|f l IH]; [done|].
  rewrite fmap_cons, filter_cons_True by done. by rewrite IH.
Qed.

Lemma filter_warning_app (l entries : list (Level * string)) :
  (∀ e, e ∈ entries → e.1 ≠ WARNING) →
  filter (λ e : Level * string, e.1 = WARNING) (l ++ entries)
  = filter (λ e : Level * string, e.1 = WARNING) l.
Proof.
  intros Hl. rewrite filter_app, (filter_warning_nil entries) by done.
  apply app_nil_r.
Qed.

Lemma main_chunk_warnings (cfg : Cfg) (f out_dir : Path) (R st : Z) (w w' : World) r :
  main_chunk cfg f out_dir R st w = (w', r) →
  filter (λ e : Level * string, e.1 = WARNING) (logs w')
  = filter (λ e : Level * string, e.1 = WARNING) (logs w).
Proof.
  rewrite main_chunk_run. cbv zeta. rewrite rwlock_wrap_run.
  destruct (_ && _).
  { intros [= <- _]. cbn [logs add_call log_entry].
    apply filter_warning_app. by intros e ->%list_elem_of_singleton. }
  destruct (scan_with_row_idx _ _) as [w1 [df|e]] eqn:E;
    apply scan_with_row_idx_frame in E as (_ & _ & _ & entries & -> & Hdbg);
    [destruct (Polars.collect _ _)|]; intros [= <- _];
    cbn [logs set_fs log_all add_call log_entry];
    rewrite filter_warning_app by (intros e' He; by rewrite (Hdbg e' He));
    apply filter_warning_app; by intros e' ->%list_elem_of_singleton.
Qed.

Lemma main_file_warnings (cfg : Cfg) (rng : Shuffle) (f : Path) (w w' : World) r :
  main_file cfg rng f w = (w', r) →
  filter (λ e : Level * string, e.1 = WARNING) (logs w')
  = filter (λ e : Level * string, e.1 = WARNING) (logs w).
Proof.
  rewrite main_file_run.
  destruct (get_shard_prefix _ f) as [prefix|e]; [|by intros [= <- _]]. cbv zeta.
  set (w0 := log_entry INFO _ _).
  destruct (scan_with_row_idx f w0) as [w2 [df|e]] eqn:E;
    apply scan_with_row_idx_frame in E as (_ & _ & _ & entries & -> & Hdbg).
  all: assert (filter (λ e : Level * string, e.1 = WARNING) (logs (log_all entries w0))
               = filter (λ e : Level * string, e.1 = WARNING) (logs w)) as H2
         by (unfold w0; cbn [logs log_all log_entry add_dirs];
             rewrite filter_warning_app by (intros e' He; by rewrite (Hdbg e' He));
             apply filter_warning_app; by intros e' ->%list_elem_of_singleton).
  2: by intros [= <- _].
  destruct (rbind _ _) as [[R starts]|e]; [|by intros [= <- _]].
  apply for_invariant
    with (I := λ w1, filter (λ e : Level * string, e.1 = WARNING) (logs w1)
                     = filter (λ e : Level * string, e.1 = WARNING) (logs w)).
  - intros st w1 w1' r1 _ Hw1 Hchunk%main_chunk_warnings. by rewrite Hchunk.
  - cbn [logs log_entry]. rewrite filter_warning_app; [done|].
    by intros e' ->%list_elem_of_singleton.
Qed.

(** X16. Whatever the shuffle and however the run ends, the warnings that
    a run of [main] adds to the log are the skip messages of discovery,
    one for every file passed over because its shard prefix was taken, in
    the order of discovery; reading, splitting and writing log no warning. *)
Theorem main_warnings (cfg : Cfg) (tree : list Path) (rng : Shuffle) (w w' : World) r :
  let raw := PurePath.parse_parts (raw_cohort_dir cfg) in
  tree_ok tree →
  main cfg tree rng w = (w', r) →
  filter (λ e : Level * string, e.1 = WARNING) (logs w')
  = filter (λ e : Level * string, e.1 = WARNING) (logs w)
    ++ ((λ f, (WARNING, skip_warning f))
          <$> skipped_of (shard_key raw) ∅ (discovered raw tree)).
Proof.
  intros raw Hok. rewrite main_run by done.
  apply for_invariant
    with (I := λ w1, filter (λ e : Level * string, e.1 = WARNING) (logs w1)
                     = filter (λ e : Level * string, e.1 = WARNING) (logs w)
                       ++ ((λ f, (WARNING, skip_warning f))
                             <$> skipped_of (shard_key raw) ∅ (discovered raw tree))).
  - intros f w1 w1' r1 _ Hw1 Hfile%main_file_warnings. by rewrite Hfile.
  - cbn [logs log_all]. unfold main_entries. fold raw.
    rewrite app_assoc, filter_warning_app.
    + by rewrite filter_app, filter_warning_all.
    + intros e [->|[->|[]%elem_of_nil]%elem_of_cons]%elem_of_cons; done.
Qed.

Lemma main_warnings_witness :
  let tree := [["a.csv"]; ["a.parquet"]; ["b.csv.gz"]] in
  let w := Trial.world [(["/"; "raw"; "a.parquet"], Trial.table 3)] in
  let run := main (Trial.cfg 2) tree Trial.flip w in
  filter (λ e : Level * string, e.1 = WARNING) (logs run.1)
  = filter (λ e : Level * string, e.1 = WARNING) (logs w)
    ++ ((λ f, (WARNING, skip_warning f))
          <$> skipped_of (shard_key ["/"; "raw"]) ∅
                (discovered ["/"; "raw"] tree)).
Proof.
  intros tree w run.
  apply (main_warnings (Trial.cfg 2) tree Trial.flip w run.1 run.2).
  - intros rel Hrel. unfold tree in Hrel.
    repeat (apply elem_of_cons in Hrel as [->|Hrel]; [reflexivity|]).
    by apply elem_of_nil in Hrel.
  - apply surjective_pairing.
Defined.


(** ** Reading an output file back *)

Lemma suffix_chunk_name (out_dir : Path) (st end_ : Z) :
  PurePath.suffix (out_dir ++ [chunk_name st end_]) = ".parquet".
Proof.
  unfold PurePath.suffix. cbv zeta.
  assert (valid_rel [chunk_name st end_] = true) as Hv.
  { apply valid_rel_spec. split; [done|]. apply Forall_singleton, chunk_name_valid. }
  rewrite name_app, name_rel by done. cbn [List.last].
  unfold chunk_name. rewrite !rfind_app.
  change (PyStr.rfind "." ").parquet") with (Some 1%nat). cbv beta iota.
  rewrite bool_decide_eq_true_2 by (cbn; lia).
  rewrite bool_decide_eq_true_2 by (rewrite !len_app; cbn; lia).
  cbn [andb]. by rewrite !slice_from_app.
Qed.

(** A path with an opening bracket that is not closed is no glob pattern:
    the scan of it raises, whatever the files are. *)
Lemma read_table_unclosed (expand : Polars.Expand) (files : gmap Path DataFrame)
    (fp : Path) (name : string) :
  Polars.unclosed_bracket fp = true →
  Polars.read_table expand files fp name
  = Err (ComputeError "invalid glob pattern given").
Proof.
  intros H. unfold Polars.read_table. rewrite H.
  assert (Polars.has_glob fp = true) as ->; [|done].
  unfold Polars.unclosed_bracket in H. unfold Polars.has_glob. cbv zeta in *.
  destruct (PyStr.rfind "[" (PurePath.str fp)) as [i|] eqn:E; [|done].
  destruct (PyStr.mem "[" (PurePath.str fp)) eqn:Hmem; [by rewrite orb_true_r|].
  apply rfind_None in Hmem. by rewrite Hmem in E.
Qed.

(** [main_file] on such a path raises before it comes to the chunks. *)
Lemma main_file_unclosed (cfg : Cfg) (rng : Shuffle) (f : Path) (w w' : World) r :
  Polars.unclosed_bracket f = true →
  main_file cfg rng f w = (w', r) →
  (∃ e, r = Err e) ∧ fs w' = fs w ∧ calls w' = calls w.
Proof.
  intros Hf. rewrite main_file_run.
  destruct (get_shard_prefix _ f) as [prefix|e]; [|intros [= <- <-]; by eauto].
  cbv zeta.
  destruct (scan_with_row_idx f _) as [w2 [df|e]] eqn:E.
  2:{ apply scan_with_row_idx_frame in E as (Hfs & Hcalls & _).
      intros [= <- <-]. by eauto. }
  pose proof (scan_with_row_idx_ok _ _ _ _ E) as ->.
  apply scan_with_row_idx_frame in E as (Hfs & Hcalls & _).
  cbn [Polars.collect]. rewrite read_table_unclosed by done. cbn [rbind].
  intros [= <- <-]. by eauto.
Qed.

(** X17. A chunk file that the script has written cannot be read by the
    script's own reader: for an output path [<dir>/[st-end).parquet] the
    reader dispatch takes the parquet scan, since the suffix is
    [.parquet], but the opening bracket of the name is never closed, so
    the row count and every row chunk of the scan raise, whatever files
    there are; [main_file] run on such a path raises and leaves the files
    and the calls as they were. The scan is by glob pattern, as
    [pl.scan_parquet] has it. *)
Theorem chunk_output_not_read_back (cfg : Cfg) (rng : Shuffle) (out_dir : Path)
    (st end_ : Z) (w : World) :
  let out : Path := out_dir ++ [chunk_name st end_] in
  (∃ msg, scan_with_row_idx out w
          = (log_entry DEBUG msg w, Ok (LScan out ROW_IDX_NAME)))
  ∧ (∀ expand files,
       (∃ e, Polars.collect expand files (LSelectLen (LScan out ROW_IDX_NAME)) = Err e)
       ∧ ∀ lo hi,
           ∃ e, Polars.collect expand files
                  (filter_to_row_chunk (LScan out ROW_IDX_NAME) lo hi) = Err e)
  ∧ ∃ w' e, main_file cfg rng out w = (w', Err e)
            ∧ fs w' = fs w ∧ calls w' = calls w.
Proof.
  intros out.
  assert (Polars.unclosed_bracket out = true) as Hout by apply unclosed_bracket_chunk.
  split; [|split].
  - rewrite scan_with_row_idx_run. cbv zeta. unfold out.
    rewrite suffix_chunk_name. cbn. by eexists.
  - intros expand files. split; [|intros lo hi]; unfold filter_to_row_chunk;
      cbn [Polars.collect]; rewrite read_table_unclosed by done; by eexists.
  - destruct (main_file cfg rng out w) as [w' r] eqn:E.
    destruct (main_file_unclosed cfg rng out w w' r Hout E) as ([e ->] & Hfs & Hcalls).
    by exists w', e.
Qed.

(** ** What a run can have written when it stops *)

(** One chunk leaves the files as they are, or puts the rows of its chunk
    at its output path, where there was no file or overwriting is on. *)
Lemma main_chunk_fs (cfg : Cfg) (f out_dir : Path) (R st : Z) (w w' : World) r :
  Polars.has_glob f = false →
  main_chunk cfg f out_dir R st w = (w', r) →
  fs w' = fs w
  ∨ ∃ d, fs w !! f = Some d ∧ (ROW_IDX_NAME ∉ columns d)
         ∧ (is_Some (fs w !! call_out (chunk_call cfg f out_dir R st))
            → do_overwrite cfg = true)
         ∧ fs w' = <[call_out (chunk_call cfg f out_dir R st)
                      := chunk_table d st (chunk_end st (row_chunksize cfg) R)]> (fs w).
Proof.
  intros Hplain. rewrite main_chunk_run. cbv zeta. rewrite rwlock_wrap_run.
  destruct (_ && _) eqn:Hskip; [intros [= <- _]; by left|].
  destruct (scan_with_row_idx _ _) as [w1 [df|e]] eqn:E.
  2:{ apply scan_with_row_idx_frame in E as (Hfs & _). intros [= <- _]. by left. }
  pose proof (scan_with_row_idx_ok _ _ _ _ E) as ->.
  apply scan_with_row_idx_frame in E as (Hfs & _). cbn in Hfs.
  cbn [call_end chunk_call].
  rewrite (collect_chunk_plain (globs w1)) by done.
  destruct (call_table (fs w1) _) as [table|e] eqn:Htable;
    intros [= <- _]; [|by left].
  right. cbn [fs set_fs]. rewrite Hfs in *.
  assert (∃ d, fs w !! f = Some d ∧ (ROW_IDX_NAME ∉ columns d)) as (d & Hd & Hcol).
  { revert Htable. unfold call_table, filter_to_row_chunk. cbn [Polars.collect call_in].
    rewrite read_table_plain by done. unfold Polars.read_literal.
    destruct (fs w !! f) as [d|] eqn:Hd; [|done].
    unfold Polars.with_row_index.
    destruct (decide (ROW_IDX_NAME ∈ columns d)) as [Hin|Hcol]; [|by exists d].
    by rewrite bool_decide_eq_true_2. }
  pose proof (call_table_chunk (fs w)
                (mkWrapCall f [] st (chunk_end st (row_chunksize cfg) R)) d
                Hplain Hd Hcol) as Ht.
  cbn [call_in call_start call_end] in Ht.
  rewrite Ht in Htable. injection Htable as <-. exists d.
  split; [done|]. split; [done|]. split; [|done].
  intros Hsome. cbn [fs add_call log_entry] in Hskip.
  rewrite bool_decide_eq_true_2 in Hskip by done.
  by destruct (do_overwrite cfg).
Qed.



(** ** Running again *)

(** After a normal run, a chunk of an accepted file that is run again
    leaves the files as they are. *)
Lemma main_chunk_again (cfg : Cfg) (tree : list Path) (fs0 : gmap Path DataFrame)
    (f : Path) (prefix : string) (R st : Z) (starts : list Z) (wa wb : World) r :
  let fs1 := apply_calls (do_overwrite cfg) fs0 (all_calls cfg tree fs0) fs0 in
  tree_ok tree → plain_inputs cfg tree → f ∈ accepted_files cfg tree →
  get_shard_prefix (PurePath.parse_parts (raw_cohort_dir cfg)) f = Ok prefix →
  probe fs0 f = Ok R → py_range 0 R (row_chunksize cfg) = Ok starts → st ∈ starts →
  fs wa = fs1 →
  main_chunk cfg f (out_dir_of cfg prefix) R st wa = (wb, r) →
  fs wb = fs1.
Proof.
  intros fs1 Hok Hplain Hf Hprefix Hprobe Hstarts Hst Hwa Hrun.
  assert (Polars.has_glob f = false) as Hfp by by apply Hplain.
  set (c := chunk_call cfg f (out_dir_of cfg prefix) R st).
  assert (c ∈ all_calls cfg tree fs0) as Hc.
  { apply list_elem_of_bind. exists f. split; [|done].
    rewrite (file_calls_starts cfg fs0 f prefix R starts) by done.
    apply list_elem_of_fmap. by exists st. }
  assert (fs1 !! f = fs0 !! f) as Hkeep.
  { apply lookup_apply_calls_ne. intros c' Hc' Heq.
    apply (all_calls_out_glob cfg tree fs0 Hok) in Hc'. by rewrite Heq, Hfp in Hc'. }
  assert (fs1 !! call_out c
          = apply_call (do_overwrite cfg) fs0 c fs0 !! call_out c) as Hout.
  { apply lookup_apply_calls_in; [by apply all_calls_out_NoDup | done]. }
  apply main_chunk_fs in Hrun as [->|(d & Hd & Hcol & Hov & ->)]; [done| |done].
  fold c in Hov |- *. rewrite Hwa in *. rewrite Hkeep in Hd.
  assert (call_table fs0 c = Ok (chunk_table d st (chunk_end st (row_chunksize cfg) R)))
    as Htable by (by apply call_table_chunk).
  apply insert_id. rewrite Hout in Hov |- *. unfold apply_call in *.
  rewrite Htable in *.
  destruct (bool_decide (is_Some (fs0 !! call_out c))) eqn:Hsome;
    destruct (do_overwrite cfg) eqn:Hflag; cbn [andb negb] in *;
    try (by rewrite lookup_insert_eq).
  apply bool_decide_eq_true_1 in Hsome. by specialize (Hov Hsome).
Qed.

(** X13. Running [main] again after a normal run changes no file, however
    the second run ends and whatever its shuffles: the first run is one in
    which no accepted input path holds a glob character; the second run has
    its own listing, in which every accepted file was accepted by the first
    run or has a path with an opening bracket that is never closed, as the
    chunk files [[st-end).parquet] that the first run wrote have. The second
    run may raise (it does when it comes to such a file); nothing is said of
    how far it gets. The wrapper is the one modelled from the
    specification. *)
Theorem main_rerun_changes_nothing (cfg : Cfg) (tree tree2 : list Path)
    (rng rng' : Shuffle) (w w1 w1' w2 : World) r :
  tree_ok tree → tree_ok tree2 → shuffle_ok rng → shuffle_ok rng' →
  plain_inputs cfg tree →
  (∀ f, f ∈ accepted_files cfg tree2 →
        f ∈ accepted_files cfg tree ∨ Polars.unclosed_bracket f = true) →
  main cfg tree rng w = (w1, Ok tt) →
  fs w1' = fs w1 →
  main cfg tree2 rng' w1' = (w2, r) →
  fs w2 = fs w1.
Proof.
  intros Hok Hok2 Hrng [Hfiles' Hrows'] Hplain Hacc2 Hrun1 Hw1' Hrun2.
  destruct (main_ok cfg tree (fs w) Hok rng w w1 Hrng eq_refl Hplain Hrun1)
    as [Hfs1 _].
  rewrite main_run in Hrun2 by done. revert Hrun2.
  apply for_invariant with (I := λ w0, fs w0 = fs w1); [|done].
  intros f wa wb ra Hf Hwa. rewrite Hfiles' in Hf.
  destruct (Hacc2 f Hf) as [Hacc|Hbad].
  2:{ intros Hrun. apply main_file_unclosed in Hrun as (_ & -> & _); done. }
  assert (Polars.has_glob f = false) as Hfp by by apply Hplain.
  assert (fs w1 !! f = fs w !! f) as Hkeep.
  { rewrite Hfs1. apply lookup_apply_calls_ne. intros c' Hc' Heq.
    apply (all_calls_out_glob cfg tree (fs w) Hok) in Hc'. by rewrite Heq, Hfp in Hc'. }
  rewrite main_file_run.
  destruct (get_shard_prefix _ f) as [prefix|e] eqn:Hprefix; [|by intros [= <- _]].
  cbv zeta.
  destruct (scan_with_row_idx _ _) as [wc [df|e]] eqn:E.
  2:{ apply scan_with_row_idx_frame in E as (Hfs & _). cbn in Hfs.
      intros [= <- _]. by rewrite Hfs. }
  pose proof (scan_with_row_idx_ok _ _ _ _ E) as ->.
  apply scan_with_row_idx_frame in E as (Hfs & _). cbn in Hfs.
  pose proof (collect_len_plain (globs wc) (fs wc) _ Hfp) as Hprobe.
  destruct (Polars.collect (globs wc) (fs wc) _) as [counted|e];
    [|intros [= <- _]; by rewrite Hfs]. cbn [rbind] in Hprobe |- *.
  destruct (Polars.item counted) as [R|e]; [|intros [= <- _]; by rewrite Hfs].
  cbn [rbind].
  destruct (py_range 0 R (row_chunksize cfg)) as [starts|e] eqn:Hstarts;
    [|intros [= <- _]; by rewrite Hfs]. cbn [rbind].
  symmetry in Hprobe.
  rewrite (probe_ext (fs wc) (fs w)) in Hprobe by (by rewrite Hfs, Hwa).
  apply for_invariant with (I := λ w0, fs w0 = fs w1);
    [|cbn; by rewrite Hfs].
  intros st wd we rd Hst Hwd Hchunk. rewrite Hrows' in Hst.
  rewrite Hfs1 in Hwd |- *.
  by apply (main_chunk_again cfg tree (fs w) f prefix R st starts wd we rd).
Qed.

Lemma main_rerun_changes_nothing_witness :
  let cfg := mkCfg "/d" "/d" 2 true in
  let tree := [["a.parquet"]] in
  let tree2 := [["a.parquet"]; ["sub_sharded"; "a"; "[0-2).parquet"];
                ["sub_sharded"; "a"; "[2-3).parquet"]] in
  let w := Trial.world [(["/"; "d"; "a.parquet"], Trial.table 3)] in
  let run1 := main cfg tree Trial.keep w in
  let run2 := main cfg tree2 Trial.keep run1.1 in
  (run1.2 = Ok tt
   ∧ accepted_files cfg tree2
     = [["/"; "d"; "a.parquet"]; ["/"; "d"; "sub_sharded"; "a"; "[0-2).parquet"];
        ["/"; "d"; "sub_sharded"; "a"; "[2-3).parquet"]]
   ∧ run2.2 = Err (ComputeError "invalid glob pattern given")
   ∧ length (calls run2.1) = 4%nat)
  ∧ fs run2.1 = fs run1.1.
Proof.
  intros cfg tree tree2 w run1 run2.
  assert (tree_ok tree) as Hok.
  { intros rel Hrel. unfold tree in Hrel.
    repeat (apply elem_of_cons in Hrel as [->|Hrel]; [reflexivity|]).
    by apply elem_of_nil in Hrel. }
  assert (tree_ok tree2) as Hok2.
  { intros rel Hrel. unfold tree2 in Hrel.
    repeat (apply elem_of_cons in Hrel as [->|Hrel]; [reflexivity|]).
    by apply elem_of_nil in Hrel. }
  assert (shuffle_ok Trial.keep) as Hrng by (split; intros; apply Permutation_refl).
  assert (plain_inputs cfg tree) as Hplain.
  { intros g Hg. vm_compute in Hg.
    repeat (apply elem_of_cons in Hg as [->|Hg]; [reflexivity|]).
    by apply elem_of_nil in Hg. }
  assert (∀ f, f ∈ accepted_files cfg tree2 →
               f ∈ accepted_files cfg tree ∨ Polars.unclosed_bracket f = true) as Hacc2.
  { intros g Hg. vm_compute in Hg.
    apply elem_of_cons in Hg as [->|Hg]; [left; vm_compute; left|].
    repeat (apply elem_of_cons in Hg as [->|Hg]; [right; reflexivity|]).
    by apply elem_of_nil in Hg. }
  assert (accepted_files cfg tree2
          = [["/"; "d"; "a.parquet"]; ["/"; "d"; "sub_sharded"; "a"; "[0-2).parquet"];
             ["/"; "d"; "sub_sharded"; "a"; "[2-3).parquet"]]) as Hacc
    by (vm_compute; reflexivity).
  assert (run2.2 = Err (ComputeError "invalid glob pattern given")) as Hr2
    by (vm_compute; reflexivity).
  assert (length (calls run2.1) = 4%nat) as Hlen by (vm_compute; reflexivity).
  assert (run1.2 = Ok tt) as Hr1 by (vm_compute; reflexivity).
  split; [exact (conj Hr1 (conj Hacc (conj Hr2 Hlen)))|].
  assert (run1 = (run1.1, Ok tt)) as Hrun1.
  { rewrite <- Hr1. apply surjective_pairing. }
  exact (main_rerun_changes_nothing cfg tree tree2 Trial.keep Trial.keep w run1.1
           run1.1 run2.1 run2.2 Hok Hok2 Hrng Hrng Hplain Hacc2 Hrun1 eq_refl
           (surjective_pairing run2)).
Defined.
